(** * Compilation statistics of Compiler Explorer ([lib/stats.ts])

    A shallow embedding of the statistics emitter: the option filter, the
    non-identifying projection of a request, the time-partitioned object
    key, the buffering noter with its flush timer, and the factory that
    picks a noter from the operator's properties.  JavaScript strings are
    modelled as Rocq strings (sequences of bytes, UTF-8), integers that the
    program handles as numbers are modelled in [Z]. *)

From Stdlib Require Import ZArith Bool Ascii String List DecimalString.
From stdpp Require Import gmap strings list fin_maps.
Import ListNotations.

Local Open Scope string_scope.
Local Open Scope Z_scope.

(** ** Regular expressions

    The two patterns of [filterCompilerOptions] are anchored at the start of
    the subject and use character classes, sequencing, alternation and the
    end-of-input assertion [$] (no [m] flag, so [$] holds at the very end of
    the subject only).  The matcher is the usual backtracking one, written
    with a continuation that receives the rest of the subject. *)

Module Regex.

Inductive regex : Type :=
| Class (cs : list ascii)
| Seq (r1 r2 : regex)
| Alt (r1 r2 : regex)
| EndOfInput.

Fixpoint matches (r : regex) (s : string) (k : string -> bool) : bool :=
  match r with
  | Class cs =>
      match s with
      | EmptyString => false
      | String c rest => if existsb (Ascii.eqb c) cs then k rest else false
      end
  | Seq r1 r2 => matches r1 s (fun rest => matches r2 rest k)
  | Alt r1 r2 => matches r1 s k || matches r2 s k
  | EndOfInput =>
      match s with
      | EmptyString => k s
      | String _ _ => false
      end
  end.

(** [/^r/.exec(x)] is truthy (an array, even for an empty match) exactly
    when [r] matches some prefix of [x]; it is [null] otherwise. *)
Definition exec (r : regex) (x : string) : bool :=
  matches r x (fun _ => true).

End Regex.

(** ** [filterCompilerOptions] *)

(** [/^[-/]/] *)
Definition capturableArg : Regex.regex :=
  Regex.Class ["-"; "/"]%char.

(** [/^(([-/][iIdD])|(-$))/] *)
Definition unwantedArg : Regex.regex :=
  Regex.Alt
    (Regex.Seq (Regex.Class ["-"; "/"]%char) (Regex.Class ["i"; "I"; "d"; "D"]%char))
    (Regex.Seq (Regex.Class ["-"]%char) Regex.EndOfInput).

Definition filterCompilerOptions (args : list string) : list string :=
  List.filter
    (fun x => Regex.exec capturableArg x && negb (Regex.exec unwantedArg x))
    args.

(** The same selection written after the prose description: tokens that
    begin with a dash or a slash, minus those that begin with one of the
    eight include/define prefixes, minus the lone dash. *)
Definition unwanted_prefixes : list string :=
  ["-i"; "-I"; "-d"; "-D"; "/i"; "/I"; "/d"; "/D"].

Definition kept_option (x : string) : bool :=
  (String.prefix "-" x || String.prefix "/" x)
  && negb (existsb (fun p => String.prefix p x) unwanted_prefixes)
  && negb (String.eqb x "-").

(** ** Numbers and dates as the program prints them *)

(** [String(n)] for an integral number: decimal digits, a leading dash for a
    negative one. *)
Definition Z_to_string (z : Z) : string :=
  NilZero.string_of_int (Z.to_int z).

Fixpoint zeros (n : nat) : string :=
  match n with
  | O => EmptyString
  | S n' => String "0" (zeros n')
  end.

(** [s.padStart(width, '0')] *)
Definition padStart0 (width : nat) (s : string) : string :=
  zeros (width - String.length s) ++ s.

(** The built-in [Date], restricted to what [new Date()] can produce: a
    valid time value, in milliseconds since the epoch, read in UTC.  The
    field extractors are the abstract operations of the language standard
    (Day, YearFromTime, MonthFromTime, DateFromTime, ...). *)
Module JsDate.

Record Date : Type := mkDate { timeValue : Z }.

Definition msPerSecond : Z := 1000.
Definition msPerMinute : Z := 60000.
Definition msPerHour : Z := 3600000.
Definition msPerDay : Z := 86400000.

Definition Day (t : Z) : Z := t / msPerDay.
Definition TimeWithinDay (t : Z) : Z := t mod msPerDay.

Definition DaysInYear (y : Z) : Z :=
  if negb (y mod 4 =? 0) then 365
  else if negb (y mod 100 =? 0) then 366
  else if negb (y mod 400 =? 0) then 365
  else 366.

Definition DayFromYear (y : Z) : Z :=
  365 * (y - 1970) + (y - 1969) / 4 - (y - 1901) / 100 + (y - 1601) / 400.

(** The largest year whose first day is not after the day of [t]: a first
    guess from the mean length of a year, off by at most one, then put
    right. *)
Definition YearFromTime (t : Z) : Z :=
  let d := Day t in
  let y := 1970 + d * 400 / 146097 in
  if d <? DayFromYear y then y - 1
  else if DayFromYear (y + 1) <=? d then y + 1
  else y.

Definition InLeapYear (t : Z) : Z :=
  if DaysInYear (YearFromTime t) =? 366 then 1 else 0.

Definition DayWithinYear (t : Z) : Z :=
  Day t - DayFromYear (YearFromTime t).

(** Months are numbered from 0 (January) to 11 (December). *)
Definition MonthFromTime (t : Z) : Z :=
  let d := DayWithinYear t in
  let l := InLeapYear t in
  if d <? 31 then 0
  else if d <? 59 + l then 1
  else if d <? 90 + l then 2
  else if d <? 120 + l then 3
  else if d <? 151 + l then 4
  else if d <? 181 + l then 5
  else if d <? 212 + l then 6
  else if d <? 243 + l then 7
  else if d <? 273 + l then 8
  else if d <? 304 + l then 9
  else if d <? 334 + l then 10
  else 11.

(** Days of the month are numbered from 1. *)
Definition DateFromTime (t : Z) : Z :=
  let d := DayWithinYear t in
  let l := InLeapYear t in
  match MonthFromTime t with
  | 0 => d + 1
  | 1 => d - 30
  | 2 => d - 58 - l
  | 3 => d - 89 - l
  | 4 => d - 119 - l
  | 5 => d - 150 - l
  | 6 => d - 180 - l
  | 7 => d - 211 - l
  | 8 => d - 242 - l
  | 9 => d - 272 - l
  | 10 => d - 303 - l
  | _ => d - 333 - l
  end.

Definition HourFromTime (t : Z) : Z := (t / msPerHour) mod 24.
Definition MinFromTime (t : Z) : Z := (t / msPerMinute) mod 60.
Definition SecFromTime (t : Z) : Z := (t / msPerSecond) mod 60.
Definition msFromTime (t : Z) : Z := t mod msPerSecond.

Definition getUTCFullYear (d : Date) : Z := YearFromTime (timeValue d).
Definition getUTCMonth (d : Date) : Z := MonthFromTime (timeValue d).
Definition getUTCDate (d : Date) : Z := DateFromTime (timeValue d).

Definition two (n : Z) : string := padStart0 2 (Z_to_string n).
Definition three (n : Z) : string := padStart0 3 (Z_to_string n).

(** Four digits for the years 0 to 9999, a sign and six digits otherwise. *)
Definition isoYear (y : Z) : string :=
  if (0 <=? y) && (y <=? 9999) then padStart0 4 (Z_to_string y)
  else (if y <? 0 then "-" else "+") ++ padStart0 6 (Z_to_string (Z.abs y)).

(** [YYYY-MM-DDTHH:mm:ss.sssZ], with the month counted from 1. *)
Definition toISOString (d : Date) : string :=
  let t := timeValue d in
  isoYear (YearFromTime t) ++ "-" ++ two (MonthFromTime t + 1) ++ "-" ++ two (DateFromTime t)
  ++ "T" ++ two (HourFromTime t) ++ ":" ++ two (MinFromTime t) ++ ":" ++ two (SecFromTime t)
  ++ "." ++ three (msFromTime t) ++ "Z".

End JsDate.

(** ** Values of the language and requests *)

#[local] Set Warnings "-register-all".

Inductive JsValue : Type :=
| JUndefined
| JNull
| JBool (b : bool)
| JNumber (n : Z)
| JString (s : string)
| JArray (items : list JsValue)
| JObject (entries : list (string * JsValue)).

Definition typeof (v : JsValue) : string :=
  match v with
  | JUndefined => "undefined"
  | JBool _ => "boolean"
  | JNumber _ => "number"
  | JString _ => "string"
  | JNull | JArray _ | JObject _ => "object"
  end.

(** A plain object is the list of its own enumerable properties in
    enumeration order, with pairwise distinct keys.  (Keys that look like
    array indices would enumerate first; the filter names of a request are
    identifiers.) *)
Definition JsObject : Type := list (string * JsValue).

Definition Object_entries (o : JsObject) : list (string * JsValue) := o.

(** [o[k] = v]: an existing property keeps its place, a new one goes last. *)
Fixpoint set_property (k : string) (v : JsValue) (o : JsObject) : JsObject :=
  match o with
  | [] => [(k, v)]
  | (k', v') :: o' =>
      if String.eqb k k' then (k, v) :: o' else (k', v') :: set_property k v o'
  end.

Definition Object_fromEntries (es : list (string * JsValue)) : JsObject :=
  fold_left (fun o e => set_property (fst e) (snd e) o) es [].

(** Modelled from the spec: the type of the [bypassCache] flag of a request
    is declared in another module, not embedded here; the data model gives
    it the three values None, Compilation and Execution. *)
Inductive BypassCache : Type :=
| BypassNone
| BypassCompilation
| BypassExecution.

(** Modelled from the spec: [ParsedRequest] is declared in
    [handlers/compile.ts], a module that is not embedded here.  The fields
    read by [makeSafe] are taken from [makeSafe] itself; [tools] and
    [libraries] are the two fields the comments of [CompilationRecord] leave
    out, and [backendOptions] stands for the structured compiler
    sub-options of the data model. *)
Module ParsedRequest.

Record t : Type := {
  source : string;
  options : list string;
  backendOptions : JsValue;
  filters : JsObject;
  bypassCache : BypassCache;
  tools : JsValue;
  executionParameters : JsValue;
  libraries : list JsValue
}.

End ParsedRequest.

(** What is kept of a compilation: only information deemed
    non-identifying. *)
Module CompilationRecord.

Record t : Type := {
  time : string;
  sourceHash : string;
  executionParamsHash : string;
  options : list string;
  filters : JsObject;
  bypassCache : BypassCache
}.

End CompilationRecord.

(** [value => typeof value[1] === 'boolean'] *)
Definition is_boolean_entry (value : string * JsValue) : bool :=
  String.eqb (typeof (snd value)) "boolean".

(** ** [makeKey] *)

Definition makeKey (now : JsDate.Date) : string :=
  "year=" ++ Z_to_string (JsDate.getUTCFullYear now)
  ++ "/month=" ++ Z_to_string (JsDate.getUTCMonth now)
  ++ "/date=" ++ Z_to_string (JsDate.getUTCDate now)
  ++ "/" ++ JsDate.toISOString now ++ ".json".

(** ** Operator properties

    Modelled from the spec: [PropertyGetter] is declared in
    [properties.interfaces.ts], a module that is not embedded here.  The
    operator configuration is a set of plain key/value settings read once at
    startup; [props(key, default)] gives the setting when there is one and
    the default otherwise, [props(key)] gives [undefined] when there is
    none. *)

Inductive PropValue : Type :=
| PNum (n : Z)
| PStr (s : string)
| PBool (b : bool).

Abbreviation PropertyGetter := (gmap string PropValue).

Definition props_get (props : PropertyGetter) (key : string) (default : PropValue)
  : PropValue :=
  match props !! key with
  | Some v => v
  | None => default
  end.

(** [===] on settings: same type and same value. *)
Definition strict_equal (a b : PropValue) : bool :=
  match a, b with
  | PNum x, PNum y => Z.eqb x y
  | PStr x, PStr y => String.eqb x y
  | PBool x, PBool y => Bool.eqb x y
  | _, _ => false
  end.

(** What a template literal prints for a setting ([None] is [undefined]). *)
Definition display (v : option PropValue) : string :=
  match v with
  | None => "undefined"
  | Some (PNum n) => Z_to_string n
  | Some (PStr s) => s
  | Some (PBool true) => "true"
  | Some (PBool false) => "false"
  end.

(** ** The object store as the noter sees it *)

(** The storage classes of the object store's client library. *)
Inductive StorageClass : Type :=
| STANDARD
| REDUCED_REDUNDANCY
| STANDARD_IA
| ONEZONE_IA
| INTELLIGENT_TIERING
| GLACIER
| DEEP_ARCHIVE.

Record PutOptions : Type := { redundancy : StorageClass }.

(** [new S3Bucket(bucket, region)] *)
Record S3Bucket : Type := {
  s3_bucket : option PropValue;
  s3_region : PropValue
}.

(** [Buffer.from(s)]: the bytes of [s] in UTF-8, which is how strings are
    held here. *)
Definition Buffer_from (s : string) : string := s.

Definition newline : string := String (ascii_of_nat 10) EmptyString.

(** A call either returns or throws an [Error] with a message. *)
Inductive Outcome (A : Type) : Type :=
| Returns (a : A)
| Throws (message : string).

Arguments Returns {A} a.
Arguments Throws {A} message.

Section WithBuiltins.

(** [getHash] of [utils.ts] digests any serialisable value to a string; it
    belongs to a module that is not embedded and is left open here. *)
Variable getHash : JsValue -> string.

Definition makeSafe (time : JsDate.Date) (request : ParsedRequest.t) : CompilationRecord.t :=
  {| CompilationRecord.time := JsDate.toISOString time;
     CompilationRecord.sourceHash := getHash (JString (ParsedRequest.source request));
     CompilationRecord.executionParamsHash :=
       getHash (ParsedRequest.executionParameters request);
     CompilationRecord.options := filterCompilerOptions (ParsedRequest.options request);
     CompilationRecord.filters :=
       Object_fromEntries
         (List.filter is_boolean_entry (Object_entries (ParsedRequest.filters request)));
     CompilationRecord.bypassCache := ParsedRequest.bypassCache request |}.

(** [JSON.stringify] on a record; the built-in serialiser is left open too. *)
Variable JSON_stringify : CompilationRecord.t -> string.

(** ** The buffering noter *)

(** [setTimeout] hands back a timer handle; the only callback the noter ever
    schedules is its own [flush]. *)
Definition Timeout : Type := nat.

(** What the noter does to the world around it, in program order. *)
Inductive Effect : Type :=
| S3_put (s3 : S3Bucket) (key : string) (value : string) (path : PropValue)
         (options : PutOptions)
| setTimeout (handle : Timeout) (ms : PropValue)
| clearTimeout (handle : Timeout)
| logger_info (message : string)
| logger_warn (message : string).

Definition is_put (e : Effect) : bool :=
  match e with
  | S3_put _ _ _ _ _ => true
  | _ => false
  end.

Record StatsNoter : Type := {
  _statsQueue : list CompilationRecord.t;
  _flushAfterMs : PropValue;
  _flushJob : option Timeout;
  _s3 : S3Bucket;
  _path : PropValue
}.

(** [this._statsQueue = queue] and [this._flushJob = job]. *)
Definition set_statsQueue (queue : list CompilationRecord.t) (this : StatsNoter) : StatsNoter :=
  {| _statsQueue := queue;
     _flushAfterMs := _flushAfterMs this;
     _flushJob := _flushJob this;
     _s3 := _s3 this;
     _path := _path this |}.

Definition set_flushJob (job : option Timeout) (this : StatsNoter) : StatsNoter :=
  {| _statsQueue := _statsQueue this;
     _flushAfterMs := _flushAfterMs this;
     _flushJob := job;
     _s3 := _s3 this;
     _path := _path this |}.

Definition StatsNoter_constructor (props : PropertyGetter) : StatsNoter * list Effect :=
  let flushAfterMs := props_get props "compilationStatsNotifierFlushMs" (PNum (5 * 60 * 1000)) in
  let bucket := props !! "compilationStatsNotifierS3Bucket" in
  let region := props_get props "compilationStatsNotifierS3Region" (PStr "us-east-1") in
  let path := props_get props "compilationStatsNotifierS3Path" (PStr "compile-stats") in
  ({| _statsQueue := [];
      _flushAfterMs := flushAfterMs;
      _flushJob := None;
      _s3 := {| s3_bucket := bucket; s3_region := region |};
      _path := path |},
   [logger_info ("Flushing stats to " ++ display bucket ++ "/" ++ display (Some path)
                 ++ " every " ++ display (Some flushAfterMs) ++ "ms")]).

(** An array is an object, and every object is truthy, the empty array too. *)
Definition truthy_array {A : Type} (l : list A) : bool := true.

Definition flush (now : JsDate.Date) (this : StatsNoter) : StatsNoter * list Effect :=
  let toFlush := _statsQueue this in
  let this := set_statsQueue [] this in
  let written :=
    if truthy_array toFlush then
      [S3_put (_s3 this) (makeKey now)
              (Buffer_from (String.concat newline (List.map JSON_stringify toFlush)))
              (_path this)
              {| redundancy := REDUCED_REDUNDANCY |}]
    else [] in
  match _flushJob this with
  | Some job => (set_flushJob None this, (written ++ [clearTimeout job])%list)
  | None => (this, written)
  end.

(** How the promise of a [put] comes back. *)
Inductive Settled : Type :=
| Fulfilled
| Rejected (e : string).

(** The two continuations hung on the promise in [flush]:
    [.then(() => {})] and [.catch(e => logger.warn(...))]. *)
Definition put_settled (now : JsDate.Date) (outcome : Settled) (this : StatsNoter)
  : StatsNoter * list Effect :=
  match outcome with
  | Fulfilled => (this, [])
  | Rejected e =>
      (this,
       [logger_warn ("Caught exception trying to log compilations to " ++ makeKey now
                     ++ ": " ++ e)])
  end.

(** [handle] is the handle [setTimeout] returns if it is called.  A handle
    is an object, hence truthy; only [undefined] passes the test. *)
Definition noteCompilation (now : JsDate.Date) (handle : Timeout)
    (request : ParsedRequest.t) (this : StatsNoter) : StatsNoter * list Effect :=
  let this := set_statsQueue (_statsQueue this ++ [makeSafe now request])%list this in
  match _flushJob this with
  | None => (set_flushJob (Some handle) this, [setTimeout handle (_flushAfterMs this)])
  | Some _ => (this, [])
  end.

(** The size threshold of the design, in its weakest reading: noting a
    compilation flushes by itself when it issues a write to the store or
    leaves the queue empty. *)
Definition note_flushes (now : JsDate.Date) (handle : Timeout)
    (request : ParsedRequest.t) (this : StatsNoter) : Prop :=
  List.filter is_put (snd (noteCompilation now handle request this)) <> []
  \/ _statsQueue (fst (noteCompilation now handle request this)) = [].

(** ** [createStatsNoter] *)

Inductive IStatsNoter : Type :=
| NullStatsNoter
| S3StatsNoter (noter : StatsNoter).

Definition createStatsNoter (props : PropertyGetter) : Outcome (IStatsNoter * list Effect) :=
  let type := props_get props "compilationStatsNotifier" (PStr EmptyString) in
  if strict_equal type (PStr "none") then Returns (NullStatsNoter, [])
  else if strict_equal type (PStr "S3") then
    let (noter, effects) := StatsNoter_constructor props in
    Returns (S3StatsNoter noter, effects)
  else Throws ("Unknown stats type '" ++ display (Some type) ++ "'").

(** [noter.noteCompilation(request)] through the interface: the method of
    [NullStatsNoter] has an empty body. *)
Definition IStatsNoter_noteCompilation (now : JsDate.Date) (handle : Timeout)
    (request : ParsedRequest.t) (this : IStatsNoter) : IStatsNoter * list Effect :=
  match this with
  | NullStatsNoter => (NullStatsNoter, [])
  | S3StatsNoter noter =>
      let (noter', effects) := noteCompilation now handle request noter in
      (S3StatsNoter noter', effects)
  end.

(** ** The noter in its event loop

    The noter runs on a single thread: a request notes a compilation, an
    armed timer fires and runs [flush], a pending write settles and runs its
    continuation.  Each of these runs to its end before the next starts. *)

Inductive Event : Type :=
| Note (now : JsDate.Date) (request : ParsedRequest.t)
| TimerFires (now : JsDate.Date) (handle : Timeout)
| PutSettles (now : JsDate.Date) (outcome : Settled).

Record World : Type := {
  noter : StatsNoter;
  armed : list Timeout;
  writes_pending : nat;
  next_handle : Timeout;
  history : list Effect
}.

(** The runtime's side of one effect. *)
Definition perform (w : World) (e : Effect) : World :=
  match e with
  | S3_put _ _ _ _ _ =>
      {| noter := noter w; armed := armed w;
         writes_pending := S (writes_pending w);
         next_handle := next_handle w; history := (history w ++ [e])%list |}
  | setTimeout handle _ =>
      {| noter := noter w; armed := handle :: armed w;
         writes_pending := writes_pending w;
         next_handle := S (next_handle w); history := (history w ++ [e])%list |}
  | clearTimeout handle =>
      {| noter := noter w; armed := List.filter (fun h => negb (Nat.eqb h handle)) (armed w);
         writes_pending := writes_pending w;
         next_handle := next_handle w; history := (history w ++ [e])%list |}
  | logger_info _ | logger_warn _ =>
      {| noter := noter w; armed := armed w;
         writes_pending := writes_pending w;
         next_handle := next_handle w; history := (history w ++ [e])%list |}
  end.

Definition commit (w : World) (result : StatsNoter * list Effect) : World :=
  let w1 := {| noter := fst result; armed := armed w;
               writes_pending := writes_pending w;
               next_handle := next_handle w; history := history w |} in
  fold_left perform (snd result) w1.

(** One turn of the loop; [None] when the event cannot happen in [w] (the
    timer is not armed, no write is pending). *)
Definition step (w : World) (ev : Event) : option World :=
  match ev with
  | Note now request =>
      Some (commit w (noteCompilation now (next_handle w) request (noter w)))
  | TimerFires now handle =>
      if existsb (Nat.eqb handle) (armed w) then
        let w1 := {| noter := noter w;
                     armed := List.filter (fun h => negb (Nat.eqb h handle)) (armed w);
                     writes_pending := writes_pending w;
                     next_handle := next_handle w; history := history w |} in
        Some (commit w1 (flush now (noter w1)))
      else None
  | PutSettles now outcome =>
      match writes_pending w with
      | O => None
      | S n =>
          let w1 := {| noter := noter w; armed := armed w; writes_pending := n;
                       next_handle := next_handle w; history := history w |} in
          Some (commit w1 (put_settled now outcome (noter w1)))
      end
  end.

Fixpoint run (w : World) (evs : list Event) : option World :=
  match evs with
  | [] => Some w
  | ev :: evs' =>
      match step w ev with
      | Some w' => run w' evs'
      | None => None
      end
  end.

(** The world right after [new StatsNoter(props)]. *)
Definition boot (props : PropertyGetter) : World :=
  let (noter0, effects) := StatsNoter_constructor props in
  commit {| noter := noter0; armed := []; writes_pending := 0%nat;
            next_handle := 0%nat; history := [] |}
         (noter0, effects).

(** The noter holds the interval [v] and has scheduled its timers with no
    other delay. *)
Definition interval_is (v : PropValue) (w : World) : Prop :=
  _flushAfterMs (noter w) = v
  /\ forall (handle : Timeout) (ms : PropValue),
       In (setTimeout handle ms) (history w) -> ms = v.

End WithBuiltins.

(** ** The production settings ([amazon.properties])

    The settings of the hosted instances, as the property reader hands them
    out: a numeral is a number, [true] and [false] are booleans, anything
    else is a string. *)
Definition amazon_properties : PropertyGetter :=
  list_to_map
    [("cookieDomainRe", PStr "godbolt\.org|compiler-explorer\.com|godbo\.lt");
     ("cookiePolicyEnabled", PBool true);
     ("privacyPolicyEnabled", PBool true);
     ("compileTimeoutMs", PNum 20000);
     ("max-asm-size", PNum 67108864);
     ("maxConcurrentCompiles", PNum 2);
     ("staticMaxAgeSecs", PNum 30);
     ("cacheConfig", PStr "InMemory(25);S3(storage.godbolt.org,cache,us-east-1)");
     ("executableCacheConfig", PStr "S3(storage.godbolt.org,cache,us-east-1)");
     ("compilerCacheConfig", PStr "S3(storage.godbolt.org,compiler-info-cache,us-east-1)");
     ("proxyRetries", PNum 10);
     ("proxyRetryMs", PNum 500);
     ("rescanCompilerSecs", PNum 3600);
     ("sentryDsn", PStr "https://8e4614f649ad4e3faf3e7e8827b935f9@sentry.io/102028");
     ("motdUrl", PStr "/motd/motd-prod.json");
     ("pageloadUrl", PStr "https://lambda.compiler-explorer.com/pageload");
     ("storageSolution", PStr "s3");
     ("healthCheckFilePath", PStr "/efs/.health");
     ("showSponsors", PBool true);
     ("logCompilerCacheAccesses", PBool false);
     ("eventLoopMeasureIntervalMs", PNum 50);
     ("eventLoopLagThresholdWarn", PNum 100);
     ("eventLoopLagThresholdErr", PNum 1000);
     ("staticUrl", PStr "https://static.ce-cdn.net/");
     ("sentryEnvironment", PStr "prod");
     ("sentrySlowRequestMs", PNum 30000);
     ("alwaysResetLdPath", PBool true);
     ("plogConverter", PStr "/opt/compiler-explorer/pvs-studio-latest/bin/plog-converter");
     ("cmake", PStr "/opt/compiler-explorer/cmake/bin/cmake");
     ("useninja", PBool false);
     ("ld", PStr "/usr/bin/ld");
     ("readelf", PStr "/usr/bin/readelf");
     ("mkfifo", PStr "/usr/bin/mkfifo");
     ("heaptrackPath", PStr "/opt/compiler-explorer/heaptrack-x86_64-v1.3.0");
     ("libSegFaultPath", PStr "/opt/compiler-explorer/glibc-tools-x86_64");
     ("formatters", PStr "clangformat:rustfmt:gofmt:dartformat:vfmt");
     ("formatter.clangformat.name", PStr "clangformat");
     ("formatter.clangformat.exe", PStr "/opt/compiler-explorer/clang-trunk/bin/clang-format");
     ("formatter.clangformat.styles", PStr "Google:LLVM:Mozilla:Chromium:WebKit:Microsoft:GNU");
     ("formatter.clangformat.type", PStr "clangformat");
     ("formatter.rustfmt.name", PStr "rustfmt");
     ("formatter.rustfmt.exe", PStr "/opt/compiler-explorer/rust-1.77.0/bin/rustfmt");
     ("formatter.rustfmt.styles", PStr EmptyString);
     ("formatter.rustfmt.type", PStr "rustfmt");
     ("formatter.gofmt.name", PStr "gofmt");
     ("formatter.gofmt.exe", PStr "/opt/compiler-explorer/golang-1.17/go/bin/gofmt");
     ("formatter.gofmt.styles", PStr EmptyString);
     ("formatter.gofmt.type", PStr "gofmt");
     ("formatter.gofmt.explicitVersion", PStr "gofmt 1.17");
     ("formatter.dartformat.name", PStr "dartformat");
     ("formatter.dartformat.exe", PStr "/opt/compiler-explorer/dart-2.16.1/bin/dart");
     ("formatter.dartformat.styles", PStr EmptyString);
     ("formatter.dartformat.type", PStr "dartformat");
     ("formatter.vfmt.name", PStr "vfmt");
     ("formatter.vfmt.exe", PStr "/opt/compiler-explorer/v-2023.30/v");
     ("formatter.vfmt.styles", PStr EmptyString);
     ("formatter.vfmt.type", PStr "vfmt");
     ("thirdPartyIntegrationEnabled", PBool true);
     ("statusTrackingEnabled", PBool true);
     ("compilationStatsNotifier", PStr "S3(compiler-explorer-logs,compile-stats,us-east-1,15m)");
     ("compilationStaleAfterMs", PNum 60000);
     ("compilerVersionsUrl", PStr "https://api.compiler-explorer.com/get_deployed_exe_version");
     ("execqueue.remote_archs_url",
      PStr "https://api.compiler-explorer.com/get_remote_execution_archs");
     ("execqueue.queue_url",
      PStr "https://sqs.us-east-1.amazonaws.com/052730242331/prod-execqueue");
     ("execqueue.events_url", PStr "wss://events.compiler-explorer.com/prod");
     ("execqueue.is_worker", PBool false)].

Definition number_setting (props : PropertyGetter) (key : string) : option Z :=
  match props !! key with
  | Some (PNum n) => Some n
  | _ => None
  end.

(** The longest the retry policy can keep a call going: the number of
    retries times the pause between two attempts. *)
Definition retry_budget_ms (props : PropertyGetter) : option Z :=
  match number_setting props "proxyRetries", number_setting props "proxyRetryMs" with
  | Some retries, Some pause => Some (retries * pause)
  | _, _ => None
  end.

Definition budget_within_deadline (props : PropertyGetter) : bool :=
  match retry_budget_ms props, number_setting props "compilationStaleAfterMs" with
  | Some budget, Some deadline => budget <=? deadline
  | _, _ => false
  end.

(** ** The registry of outstanding work

    Modelled from the spec: the orchestrator that de-duplicates requests is
    not embedded here, only its design is known.  Following the design, the registry maps a
    fingerprint to its one outstanding unit of work (a local execution or a
    remote job), every mutation (register, attach, remove) is a single step,
    a request whose fingerprint is registered attaches to the unit that is
    there, and a unit leaves the registry when it completes or when the
    staleness guard abandons it. *)
Module Orchestrator.

Definition Fingerprint : Type := string.
Definition Caller : Type := nat.
Definition JobId : Type := nat.

Inductive Backend : Type :=
| Local
| Remote.

Inductive Work : Type :=
| PendingSlot
| RemoteJob (id : JobId).

Record UnitOfWork : Type := {
  work : Work;
  attached : list Caller
}.

(** [running] lists, newest first, the invocations of the compiler driver
    or of a remote worker that have started and not yet ended; [invoked]
    counts every invocation ever started. *)
Record State : Type := {
  registry : gmap Fingerprint UnitOfWork;
  running : list (Fingerprint * Work);
  invoked : nat;
  next_job : JobId
}.

Definition initial : State :=
  {| registry := ∅; running := []; invoked := 0%nat; next_job := 0%nat |}.

Inductive Event : Type :=
| Arrives (who : Caller) (f : Fingerprint) (on : Backend)
| Completes (f : Fingerprint)
| Abandoned (f : Fingerprint).

Definition start (on : Backend) (job : JobId) : Work :=
  match on with
  | Local => PendingSlot
  | Remote => RemoteJob job
  end.

Definition arrive (who : Caller) (f : Fingerprint) (on : Backend) (s : State) : State :=
  match registry s !! f with
  | Some u =>
      {| registry := <[f := {| work := work u; attached := who :: attached u |}]> (registry s);
         running := running s;
         invoked := invoked s;
         next_job := next_job s |}
  | None =>
      let w := start on (next_job s) in
      {| registry := <[f := {| work := w; attached := [who] |}]> (registry s);
         running := (f, w) :: running s;
         invoked := S (invoked s);
         next_job := S (next_job s) |}
  end.

Definition remove (f : Fingerprint) (s : State) : State :=
  {| registry := delete f (registry s);
     running := List.filter (fun fw => negb (String.eqb (fst fw) f)) (running s);
     invoked := invoked s;
     next_job := next_job s |}.

Definition step (s : State) (ev : Event) : State :=
  match ev with
  | Arrives who f on => arrive who f on s
  | Completes f => remove f s
  | Abandoned f => remove f s
  end.

Definition run (evs : list Event) : State := fold_left step evs initial.

(** How many invocations for [f] are under way. *)
Definition concurrent (f : Fingerprint) (s : State) : nat :=
  List.length (List.filter (fun fw => String.eqb (fst fw) f) (running s)).

(** The registry and the invocations under way tell the same story: no
    fingerprint runs twice, and a fingerprint runs exactly when it is
    registered. *)
Definition consistent (s : State) : Prop :=
  List.NoDup (List.map fst (running s))
  /\ forall f : Fingerprint, In f (List.map fst (running s)) <-> is_Some (registry s !! f).

End Orchestrator.

(** ** Worked examples *)

(** A stand-in digest for worked examples: the kind of the value and, for a
    string, its length. *)
Definition toy_hash (v : JsValue) : string :=
  match v with
  | JString s => "s" ++ Z_to_string (Z.of_nat (String.length s))
  | _ => typeof v
  end.

Definition request_a : ParsedRequest.t :=
  {| ParsedRequest.source := "int main() { return 0; }";
     ParsedRequest.options := ["-O2"; "-Iinclude"; "-DNDEBUG"; "-Wall"];
     ParsedRequest.backendOptions := JObject [];
     ParsedRequest.filters :=
       [("binary", JBool false); ("labels", JBool true); ("libraryCode", JNumber 1)];
     ParsedRequest.bypassCache := BypassNone;
     ParsedRequest.tools := JArray [];
     ParsedRequest.executionParameters := JObject [("args", JArray [])];
     ParsedRequest.libraries := [] |}.

Definition request_b : ParsedRequest.t :=
  {| ParsedRequest.source := "int main() { return 0; }";
     ParsedRequest.options := ["-O2"; "-Iinclude"; "-DNDEBUG"; "-Wall"];
     ParsedRequest.backendOptions := JObject [("produceAst", JBool true)];
     ParsedRequest.filters :=
       [("binary", JBool false); ("labels", JBool true); ("libraryCode", JNumber 1)];
     ParsedRequest.bypassCache := BypassNone;
     ParsedRequest.tools := JArray [JString "clangtidy"];
     ParsedRequest.executionParameters := JObject [("args", JArray [])];
     ParsedRequest.libraries := [JString "fmt"] |}.

Definition mid_january : JsDate.Date := JsDate.mkDate 1673740800000.

(** Another source of the same length, hence of the same stand-in digest. *)
Definition request_c : ParsedRequest.t :=
  {| ParsedRequest.source := "int main() { return 1; }";
     ParsedRequest.options := ["-O2"; "-Iinclude"; "-DNDEBUG"; "-Wall"];
     ParsedRequest.backendOptions := JObject [];
     ParsedRequest.filters :=
       [("binary", JBool false); ("labels", JBool true); ("libraryCode", JNumber 1)];
     ParsedRequest.bypassCache := BypassNone;
     ParsedRequest.tools := JArray [];
     ParsedRequest.executionParameters := JObject [("stdin", JString EmptyString)];
     ParsedRequest.libraries := [] |}.

(** A stand-in serialiser for worked examples: the time and the digest of
    the source between braces. *)
Definition toy_stringify (r : CompilationRecord.t) : string :=
  "{" ++ CompilationRecord.time r ++ "," ++ CompilationRecord.sourceHash r ++ "}".

Definition five_minutes_later : JsDate.Date := JsDate.mkDate 1673741100000.

(** A noter with one record queued and no timer pending. *)
Definition busy_noter : StatsNoter :=
  set_statsQueue [makeSafe toy_hash mid_january request_a] (fst (StatsNoter_constructor ∅)).

(** Two compilations noted, the timer fires, the write fails, and a third
    compilation is noted. *)
Definition sample_events : list Event :=
  [Note mid_january request_a;
   Note mid_january request_b;
   TimerFires five_minutes_later 0%nat;
   PutSettles five_minutes_later (Rejected "AccessDenied");
   Note five_minutes_later request_c].

(** Two clients ask for the same compilation while a third asks for
    another; the first compilation is abandoned as stale and asked for
    again. *)
Definition sample_arrivals : list Orchestrator.Event :=
  [Orchestrator.Arrives 1%nat "f1" Orchestrator.Local;
   Orchestrator.Arrives 2%nat "f1" Orchestrator.Local;
   Orchestrator.Arrives 3%nat "f2" Orchestrator.Remote;
   Orchestrator.Abandoned "f1";
   Orchestrator.Arrives 4%nat "f1" Orchestrator.Local].

(** * Further properties of the modelled code *)

From Stdlib Require Import DecimalPos DecimalZ.
From Stdlib Require HexadecimalString.

(** ** Ghost views of a run of the noter *)

(** The bodies of the writes issued so far, oldest first. *)
Fixpoint put_values (h : list Effect) : list string :=
  match h with
  | [] => []
  | S3_put _ _ value _ _ :: h' => value :: put_values h'
  | _ :: h' => put_values h'
  end.

(** The timers scheduled so far. *)
Fixpoint timers_set (h : list Effect) : nat :=
  match h with
  | [] => 0%nat
  | setTimeout _ _ :: h' => S (timers_set h')
  | _ :: h' => timers_set h'
  end.

(** The compilations noted by a sequence of events, in order. *)
Fixpoint notes_of (evs : list Event) : list (JsDate.Date * ParsedRequest.t) :=
  match evs with
  | [] => []
  | Note now request :: evs' => (now, request) :: notes_of evs'
  | _ :: evs' => notes_of evs'
  end.

(** The timers the runtime still holds for a noter whose [_flushJob] is
    [job]. *)
Definition pending_timer (job : option Timeout) : list Timeout :=
  match job with
  | Some handle => [handle]
  | None => []
  end.

Section Bookkeeping.

Variable getHash : JsValue -> string.
Variable JSON_stringify : CompilationRecord.t -> string.

(** The body [flush] writes for a batch of records. *)
Definition batch_body (batch : list CompilationRecord.t) : string :=
  Buffer_from (String.concat newline (List.map JSON_stringify batch)).

(** What holds of the noter between two turns of its loop: [noted] are the
    records noted so far and [batches] the queues flushed so far. *)
Definition accounted (w : World) (noted : list CompilationRecord.t)
    (batches : list (list CompilationRecord.t)) : Prop :=
  put_values (history w) = List.map batch_body batches
  /\ Forall (fun batch => batch <> []) batches
  /\ (List.concat batches ++ _statsQueue (noter w))%list = noted
  /\ armed w = pending_timer (_flushJob (noter w))
  /\ (_flushJob (noter w) = None <-> _statsQueue (noter w) = [])
  /\ timers_set (history w) = (List.length batches + List.length (armed w))%nat.

End Bookkeeping.

(** [s.split(sep)] for a separator of one character. *)
Fixpoint split_on (sep : ascii) (s : string) : list string :=
  match s with
  | EmptyString => [EmptyString]
  | String c rest =>
      if Ascii.eqb c sep then EmptyString :: split_on sep rest
      else match split_on sep rest with
           | [] => [String c EmptyString]
           | first :: others => String c first :: others
           end
  end.

(** [s.includes(c)] for one character. *)
Fixpoint includes_char (c : ascii) (s : string) : bool :=
  match s with
  | EmptyString => false
  | String c' rest => Ascii.eqb c' c || includes_char c rest
  end.

(** Where a write goes: bucket and region, path, storage class. *)
Definition write_target (e : Effect) : option (S3Bucket * PropValue * StorageClass) :=
  match e with
  | S3_put s3 _ _ path options => Some (s3, path, redundancy options)
  | _ => None
  end.

(** Where the settings say the statistics go: region [us-east-1] and path
    [compile-stats] unless set otherwise; the bucket has no default. *)
Definition configured_target (props : PropertyGetter)
  : S3Bucket * PropValue * StorageClass :=
  ({| s3_bucket := props !! "compilationStatsNotifierS3Bucket";
      s3_region := props_get props "compilationStatsNotifierS3Region" (PStr "us-east-1") |},
   props_get props "compilationStatsNotifierS3Path" (PStr "compile-stats"),
   REDUCED_REDUNDANCY).

Definition targets (target : S3Bucket * PropValue * StorageClass) (w : World) : Prop :=
  (_s3 (noter w), _path (noter w), REDUCED_REDUNDANCY) = target
  /\ forall e : Effect, In e (history w) ->
       write_target e = None \/ write_target e = Some target.

(** The number a string of decimal digits stands for, leading zeros
    allowed. *)
Fixpoint digits_value (acc : Z) (s : string) : Z :=
  match s with
  | EmptyString => acc
  | String c rest => digits_value (10 * acc + (Z.of_nat (nat_of_ascii c) - 48)) rest
  end.

(** ** Patterns with repetition ([lib/temp-utils.ts])

    The patterns that mask temporary directories are runs of literal
    characters, a character class repeated any number of times (greedy: the
    longest run is tried first, shorter ones on failure) and the end of
    input.  [match_k p s k] matches [p] at the start of [s] and hands the
    rest to [k], backtracking into [p] when [k] fails. *)
Module Pattern.

Inductive pattern : Type :=
| Chars (literal : string)
| ManyOf (class : ascii -> bool)
| Then (p q : pattern)
| AtEnd.

Fixpoint literal_k (literal s : string) (k : string -> option string) : option string :=
  match literal with
  | EmptyString => k s
  | String c literal' =>
      match s with
      | EmptyString => None
      | String c' s' => if Ascii.eqb c' c then literal_k literal' s' k else None
      end
  end.

Fixpoint many_k (class : ascii -> bool) (s : string) (k : string -> option string)
  : option string :=
  match s with
  | EmptyString => k s
  | String c s' =>
      if class c then
        match many_k class s' k with
        | Some rest => Some rest
        | None => k s
        end
      else k s
  end.

Fixpoint match_k (p : pattern) (s : string) (k : string -> option string) : option string :=
  match p with
  | Chars literal => literal_k literal s k
  | ManyOf class => many_k class s k
  | Then p1 p2 => match_k p1 s (fun rest => match_k p2 rest k)
  | AtEnd =>
      match s with
      | EmptyString => k s
      | String _ _ => None
      end
  end.

(** What follows the match of [p] at the start of [s], if there is one. *)
Definition match_at (p : pattern) (s : string) : option string :=
  match_k p s Some.

(** The leftmost match of [p] in [s]: what precedes it and what follows. *)
Fixpoint search (p : pattern) (s : string) : option (string * string) :=
  match match_at p s with
  | Some rest => Some (EmptyString, rest)
  | None =>
      match s with
      | EmptyString => None
      | String c s' =>
          match search p s' with
          | Some (before, rest) => Some (String c before, rest)
          | None => None
          end
      end
  end.

(** [s.replace(/p/, replacement)], for a replacement without [$]. *)
Definition replace (p : pattern) (replacement s : string) : string :=
  match search p s with
  | Some (before, rest) => before ++ replacement ++ rest
  | None => s
  end.

(** [s.replace(/^p/, replacement)]: the match has to start the string. *)
Definition replace_at_start (p : pattern) (replacement s : string) : string :=
  match match_at p s with
  | Some rest => replacement ++ rest
  | None => s
  end.

End Pattern.

(** ** Masking temporary directories ([lib/temp-utils.ts]) *)

Definition in_range (lo hi c : ascii) : bool :=
  (nat_of_ascii lo <=? nat_of_ascii c)%nat && (nat_of_ascii c <=? nat_of_ascii hi)%nat.

(** [\w] and [\d] *)
Definition word_char (c : ascii) : bool :=
  in_range "a" "z" c || in_range "A" "Z" c || in_range "0" "9" c || Ascii.eqb c "_".

Definition digit_char (c : ascii) : bool := in_range "0" "9" c.

(** [[\w\d-.]]: a dash next to a class escape stands for itself. *)
Definition tempdir_char (c : ascii) : bool :=
  word_char c || digit_char c || Ascii.eqb c "-" || Ascii.eqb c ".".

Definition temp_prefix : string := "compiler-explorer-compiler".

(** The characters that mean something in the source of a pattern. *)
Definition syntax_chars : list ascii :=
  ["\"; "^"; "$"; "."; "|"; "?"; "*"; "+"; "("; ")"; "["; "]"; "{"; "}"]%char.

Fixpoint plain (s : string) : bool :=
  match s with
  | EmptyString => true
  | String c rest => negb (existsb (Ascii.eqb c) syntax_chars) && plain rest
  end.

(** [os.tmpdir()] is spliced, with its slashes escaped, into the source of
    the pattern.  The splice is a run of literal characters when the name of
    the directory holds no character of the pattern syntax; this is the case
    embedded here, the others give [None]. *)
Definition getRegexForTempdir (tmp : string) : option Pattern.pattern :=
  if plain tmp then
    Some (Pattern.Then (Pattern.Chars tmp)
            (Pattern.Then (Pattern.Chars ("/" ++ temp_prefix))
               (Pattern.Then (Pattern.ManyOf tempdir_char) (Pattern.Chars "/"))))
  else None.

(** [/^C:\/Users\/[\w\d-.]*\/AppData\/Local\/Temp\/compiler-explorer-compiler[\w\d-.]*\//] *)
Definition win32_tempdir : Pattern.pattern :=
  Pattern.Then (Pattern.Chars "C:/Users/")
    (Pattern.Then (Pattern.ManyOf tempdir_char)
       (Pattern.Then (Pattern.Chars "/AppData/Local/Temp/compiler-explorer-compiler")
          (Pattern.Then (Pattern.ManyOf tempdir_char) (Pattern.Chars "/")))).

(** A string is truthy unless it is empty. *)
Definition truthy_string (s : string) : bool :=
  match s with
  | EmptyString => false
  | String _ _ => true
  end.

(** [s.endsWith(c)] for one character. *)
Fixpoint endsWith (s : string) (c : ascii) : bool :=
  match s with
  | EmptyString => false
  | String a EmptyString => Ascii.eqb a c
  | String _ rest => endsWith rest c
  end.

(** [platform] is [process.platform] and [tmp] is [os.tmpdir()]. *)
Definition maskRootdir (platform tmp filepath : string) : option string :=
  if truthy_string filepath then
    if String.eqb platform "win32" then
      Some (Pattern.replace_at_start (Pattern.Chars "/app/") EmptyString
              (Pattern.replace_at_start win32_tempdir "/app/" filepath))
    else
      match getRegexForTempdir tmp with
      | Some re =>
          Some (Pattern.replace_at_start (Pattern.Chars "/app/") EmptyString
                  (Pattern.replace re "/app/" filepath))
      | None => None
      end
  else Some filepath.

Definition fixRootDirIfNeeded (tmp filepath jailtype : string) : option string :=
  if truthy_string filepath && String.eqb jailtype "nsjail" then
    let hasTrailingSlash := endsWith filepath "/" in
    match getRegexForTempdir tmp with
    | Some re =>
        if hasTrailingSlash then Some (Pattern.replace re "/app/" filepath)
        else
          Some (Pattern.replace (Pattern.Then (Pattern.Chars "/") Pattern.AtEnd) EmptyString
                  (Pattern.replace re "/app/" (filepath ++ "/")))
    | None => None
    end
  else Some filepath.

(** [needle] occurs somewhere in [s]. *)
Fixpoint occurs (needle s : string) : bool :=
  String.prefix needle s
  || match s with
     | EmptyString => false
     | String _ rest => occurs needle rest
     end.

(** Every character of [s] is in [class]. *)
Fixpoint all_chars (class : ascii -> bool) (s : string) : bool :=
  match s with
  | EmptyString => true
  | String c rest => class c && all_chars class rest
  end.

(** ** Filters of old links ([static/panes/compiler.ts]) *)

(** [o[k]] for a name that the prototype of plain objects does not carry:
    the value of the own property, [undefined] when there is none. *)
Fixpoint get_property (k : string) (o : JsObject) : JsValue :=
  match o with
  | [] => JUndefined
  | (k', v) :: o' => if String.eqb k k' then v else get_property k o'
  end.

Definition is_undefined (v : JsValue) : bool :=
  match v with
  | JUndefined => true
  | _ => false
  end.

Definition old_filters : list string :=
  ["binary"; "labels"; "directives"; "commentOnly"; "trim"; "intel"; "debugCalls"].

(** [if (filters[oldFilter] === undefined) filters[oldFilter] = false] *)
Definition patch_filter (filters : JsObject) (oldFilter : string) : JsObject :=
  if is_undefined (get_property oldFilter filters)
  then set_property oldFilter (JBool false) filters
  else filters.

(** [None] is [undefined]; the object handed in is the one handed back,
    patched in place. *)
Definition patchOldFilters (filters : option JsObject) : option JsObject :=
  match filters with
  | None => None
  | Some filters => Some (fold_left patch_filter old_filters filters)
  end.

(** ** Versions for Quick Bench ([static/panes/editor.ts]) *)

(** [a[i]] for an array of strings: [None] is [undefined]. *)
Definition at_index (a : list string) (i : nat) : option string := List.nth_error a i.

(** What [+] makes of an element that may be [undefined]. *)
Definition concat_operand (v : option string) : string :=
  match v with
  | Some s => s
  | None => "undefined"
  end.

(** [None] is [null]. *)
Definition cleanupSemVer (semver : string) : option string :=
  if truthy_string semver then
    let semverStr := semver in
    if negb (String.eqb semverStr EmptyString) && negb (includes_char "(" semverStr) then
      let vercomps := split_on "." semverStr in
      Some (concat_operand (at_index vercomps 0) ++ "."
            ++ match at_index vercomps 1 with
               | Some minor => if truthy_string minor then minor else "0"
               | None => "0"
               end)
    else None
  else None.

(** ** Escaping text ([static/panes/editor.ts], [static/panes/compiler.ts])

    These two helpers look at the code of each character, so here a string
    is the list of its UTF-16 code units, numbers from 0 to 65535. *)
Module Utf16.

Definition code_unit (c : ascii) : Z := Z.of_nat (nat_of_ascii c).

(** The code units of a text written in ASCII. *)
Definition units (s : string) : list Z := List.map code_unit (list_ascii_of_string s).

Definition valid (s : list Z) : Prop := Forall (fun u => 0 <= u <= 65535) s.

(** [n.toString(16)] for a natural number. *)
Definition toString16 (n : Z) : string :=
  HexadecimalString.NilZero.string_of_int (Z.to_hex_int n).

(** [s.substring(start)]: a start below 0 counts as 0, one beyond the end as
    the length. *)
Definition substring {A : Type} (s : list A) (start : Z) : list A :=
  List.skipn (Z.to_nat (Z.min (Z.max start 0) (Z.of_nat (List.length s)))) s.

(** [json.replace(/[\u007F-\uFFFF]/g, chr => ...)] *)
Definition asciiEncodeJsonText (json : list Z) : list Z :=
  List.flat_map
    (fun chr =>
       if (127 <=? chr) && (chr <=? 65535)
       then (units "\u" ++ substring (units "0000" ++ units (toString16 chr)) (-4))%list
       else [chr])
    json.

(** [rawStr.replace(/[\u00A0-\u9999<>&]/g, i => '&#' + i.charCodeAt(0) + ';')] *)
Definition htmlEncode (rawStr : list Z) : list Z :=
  List.flat_map
    (fun i =>
       if ((160 <=? i) && (i <=? 39321))
          || (i =? code_unit "<") || (i =? code_unit ">") || (i =? code_unit "&")
       then (units "&#" ++ units (Z_to_string i) ++ units ";")%list
       else [i])
    rawStr.

End Utf16.

(** ** Saving a user template (the site templates widget)

    The answer to the prompt for a name stores the layout under the first
    identifier [t<timestamp>] that is free, counting up from the current
    time. *)

(** [k in o] for a name that plain objects do not inherit. *)
Definition has_property (k : string) (o : JsObject) : bool :=
  existsb (fun e => String.eqb k (fst e)) o.

(** [`t${timestamp}`] *)
Definition template_id (timestamp : Z) : string := "t" ++ Z_to_string timestamp.

(** [while (`t${timestamp}` in userTemplates) timestamp++], run for at most
    [fuel] tests. *)
Fixpoint free_timestamp (fuel : nat) (userTemplates : JsObject) (timestamp : Z)
  : option Z :=
  match fuel with
  | O => None
  | S fuel' =>
      if has_property (template_id timestamp) userTemplates
      then free_timestamp fuel' userTemplates (timestamp + 1)
      else Some timestamp
  end.

(** The templates written back to the store.  [now] is [Date.now()], a whole
    number of milliseconds far below 2^53, where counting up by one is
    exact.  One test more than there are templates is always enough. *)
Definition saveCurrentAsTemplate (userTemplates : JsObject) (now : Z) (name data : string)
  : option JsObject :=
  match free_timestamp (S (List.length userTemplates)) userTemplates now with
  | Some timestamp =>
      Some (set_property (template_id timestamp)
              (JObject [("title", JString name); ("data", JString data)])
              userTemplates)
  | None => None
  end.

Example filter_gcc_line :
  filterCompilerOptions
    ["-O2"; "-Iinclude"; "-DNDEBUG"; "main.cpp"; "-"; "/W4"; "/DX"; "-std=c++20"; "--";
     EmptyString; "-o"]
  = ["-O2"; "/W4"; "-std=c++20"; "--"; "-o"].
Proof. reflexivity. Qed.

Lemma prefix_cons (a b : ascii) (p s : string) :
  String.prefix (String a p) (String b s) = Ascii.eqb a b && String.prefix p s.
Proof.
  simpl. destruct (ascii_dec a b) as [->|Hne].
  - now rewrite Ascii.eqb_refl.
  - apply Ascii.eqb_neq in Hne. now rewrite Hne.
Qed.

Lemma prefix_nil_l (s : string) : String.prefix EmptyString s = true.
Proof. now destruct s. Qed.

Lemma option_test_agrees (x : string) :
  Regex.exec capturableArg x && negb (Regex.exec unwantedArg x) = kept_option x.
Proof.
  unfold kept_option, unwanted_prefixes, Regex.exec, capturableArg, unwantedArg.
  destruct x as [|c [|d rest]].
  - reflexivity.
  - cbn [Regex.matches existsb]. rewrite !prefix_cons, !prefix_nil_l.
    cbn [String.prefix String.eqb]. rewrite !(Ascii.eqb_sym c).
    destruct (Ascii.eqb "-" c), (Ascii.eqb "/" c); reflexivity.
  - cbn [Regex.matches existsb]. rewrite !prefix_cons, !prefix_nil_l.
    cbn [String.eqb]. rewrite !(Ascii.eqb_sym c), !(Ascii.eqb_sym d).
    destruct (Ascii.eqb "-" c) eqn:E1, (Ascii.eqb "/" c) eqn:E2.
    + apply Ascii.eqb_eq in E1, E2. congruence.
    + destruct (Ascii.eqb "i" d), (Ascii.eqb "I" d), (Ascii.eqb "d" d), (Ascii.eqb "D" d);
        reflexivity.
    + destruct (Ascii.eqb "i" d), (Ascii.eqb "I" d), (Ascii.eqb "d" d), (Ascii.eqb "D" d);
        reflexivity.
    + reflexivity.
Qed.

(** C9. For every list of option tokens, [filterCompilerOptions] returns
    exactly the tokens that begin with a dash or a slash, without those that
    begin with [-i], [-I], [-d], [-D], [/i], [/I], [/d] or [/D] and without
    the token that is exactly a dash; the kept tokens stay in their relative
    order (the result is the input filtered by that test, hence a
    subsequence of it). *)
Theorem filterCompilerOptions_spec (args : list string) :
  filterCompilerOptions args = List.filter kept_option args
  /\ (forall x, In x (filterCompilerOptions args) <-> In x args /\ kept_option x = true)
  /\ sublist (filterCompilerOptions args) args.
Proof.
  assert (E : filterCompilerOptions args = List.filter kept_option args).
  { unfold filterCompilerOptions. induction args as [|a args IH]; [reflexivity|].
    cbn [List.filter]. rewrite option_test_agrees, IH. reflexivity. }
  split; [exact E|]. split.
  - intros x. rewrite E. apply filter_In.
  - rewrite E. clear E. induction args as [|a args IH]; [constructor|].
    cbn [List.filter]. destruct (kept_option a).
    + now apply sublist_skip.
    + now apply sublist_cons.
Qed.

Example iso_epoch : JsDate.toISOString (JsDate.mkDate 0) = "1970-01-01T00:00:00.000Z".
Proof. reflexivity. Qed.

Example iso_before_epoch :
  JsDate.toISOString (JsDate.mkDate (-1)) = "1969-12-31T23:59:59.999Z".
Proof. reflexivity. Qed.

Example iso_leap_day :
  JsDate.toISOString (JsDate.mkDate 1709210096789) = "2024-02-29T12:34:56.789Z".
Proof. reflexivity. Qed.

Example iso_end_of_century :
  JsDate.toISOString (JsDate.mkDate 946684799999) = "1999-12-31T23:59:59.999Z".
Proof. reflexivity. Qed.

Example iso_largest :
  JsDate.toISOString (JsDate.mkDate 8640000000000000) = "+275760-09-13T00:00:00.000Z".
Proof. reflexivity. Qed.

Example iso_smallest :
  JsDate.toISOString (JsDate.mkDate (-8640000000000000)) = "-271821-04-20T00:00:00.000Z".
Proof. reflexivity. Qed.

(** The guess of [YearFromTime] is put right in one step: the year found
    starts on or before the day of [t] and the next one after it. *)
Lemma YearFromTime_spec (t : Z) :
  JsDate.DayFromYear (JsDate.YearFromTime t) <= JsDate.Day t
  < JsDate.DayFromYear (JsDate.YearFromTime t + 1).
Proof.
  unfold JsDate.YearFromTime.
  generalize (JsDate.Day t). intros d. cbv zeta.
  pose proof (Z.div_mod (d * 400) 146097 ltac:(lia)) as Hq.
  pose proof (Z.mod_pos_bound (d * 400) 146097 ltac:(lia)) as Hr.
  set (q := d * 400 / 146097) in *.
  destruct (d <? JsDate.DayFromYear (1970 + q)) eqn:E1;
    [apply Z.ltb_lt in E1 | apply Z.ltb_ge in E1;
     destruct (JsDate.DayFromYear (1970 + q + 1) <=? d) eqn:E2;
     [apply Z.leb_le in E2 | apply Z.leb_gt in E2]];
    unfold JsDate.DayFromYear in *; Z.to_euclidean_division_equations; lia.
Qed.

Lemma MonthFromTime_range (t : Z) : 0 <= JsDate.MonthFromTime t <= 11.
Proof.
  unfold JsDate.MonthFromTime. cbv zeta.
  repeat match goal with
  | |- context [if ?b then _ else _] => destruct b
  end; lia.
Qed.

Example makeKey_leap_day :
  makeKey (JsDate.mkDate 1709210096789)
  = "year=2024/month=1/date=29/2024-02-29T12:34:56.789Z.json".
Proof. reflexivity. Qed.

(** A year is as long as the distance between its first day and the next
    year's. *)
Lemma DaysInYear_step (y : Z) :
  JsDate.DayFromYear (y + 1) - JsDate.DayFromYear y = JsDate.DaysInYear y.
Proof.
  unfold JsDate.DayFromYear, JsDate.DaysInYear.
  destruct (Z.eqb_spec (y mod 4) 0) as [E4|E4];
    destruct (Z.eqb_spec (y mod 100) 0) as [E100|E100];
    destruct (Z.eqb_spec (y mod 400) 0) as [E400|E400];
    cbn [negb]; Z.to_euclidean_division_equations; lia.
Qed.

Lemma DayWithinYear_range (t : Z) :
  0 <= JsDate.DayWithinYear t < 365 + JsDate.InLeapYear t.
Proof.
  unfold JsDate.DayWithinYear, JsDate.InLeapYear.
  pose proof (YearFromTime_spec t) as H.
  pose proof (DaysInYear_step (JsDate.YearFromTime t)) as S.
  assert (D : JsDate.DaysInYear (JsDate.YearFromTime t) = 365
              \/ JsDate.DaysInYear (JsDate.YearFromTime t) = 366).
  { unfold JsDate.DaysInYear.
    repeat match goal with
    | |- context [if ?b then _ else _] => destruct b
    end; auto. }
  destruct D as [D|D]; rewrite D in *; cbn; lia.
Qed.

(** The day of the month is counted from 1. *)
Lemma DateFromTime_range (t : Z) : 1 <= JsDate.DateFromTime t <= 31.
Proof.
  pose proof (DayWithinYear_range t) as H.
  unfold JsDate.DateFromTime, JsDate.MonthFromTime. cbv zeta.
  assert (L : JsDate.InLeapYear t = 0 \/ JsDate.InLeapYear t = 1).
  { unfold JsDate.InLeapYear. destruct (_ =? _); auto. }
  revert H. generalize (JsDate.DayWithinYear t) (JsDate.InLeapYear t) L. clear.
  intros d l L H.
  repeat match goal with
  | |- context [if ?b then _ else _] => let E := fresh "E" in destruct b eqn:E
  end; lia.
Qed.

(** ** The production settings *)

(** C7. In the production settings the retry policy's whole budget stays
    within the staleness deadline: 10 retries with 500 ms between attempts
    make 5000 ms, which is at most the 60000 ms after which a compilation is
    stale. *)
Theorem retry_budget_within_staleness_deadline :
  number_setting amazon_properties "proxyRetries" = Some 10
  /\ number_setting amazon_properties "proxyRetryMs" = Some 500
  /\ retry_budget_ms amazon_properties = Some (10 * 500)
  /\ 10 * 500 = 5000
  /\ number_setting amazon_properties "compilationStaleAfterMs" = Some 60000
  /\ 5000 <= 60000
  /\ budget_within_deadline amazon_properties = true.
Proof.
  assert (R : number_setting amazon_properties "proxyRetries" = Some 10)
    by (vm_compute; reflexivity).
  assert (P : number_setting amazon_properties "proxyRetryMs" = Some 500)
    by (vm_compute; reflexivity).
  assert (D : number_setting amazon_properties "compilationStaleAfterMs" = Some 60000)
    by (vm_compute; reflexivity).
  assert (B : retry_budget_ms amazon_properties = Some (10 * 500)).
  { unfold retry_budget_ms. rewrite R, P. reflexivity. }
  assert (W : budget_within_deadline amazon_properties = true).
  { unfold budget_within_deadline. rewrite B, D. reflexivity. }
  intuition lia.
Qed.

(** ** The factory *)

Lemma strict_equal_eq (a b : PropValue) : strict_equal a b = true <-> a = b.
Proof.
  destruct a, b; cbn; try (split; [discriminate | congruence]).
  - rewrite Z.eqb_eq. split; congruence.
  - rewrite String.eqb_eq. split; congruence.
  - rewrite Bool.eqb_true_iff. split; congruence.
Qed.

Lemma strict_equal_neq (a b : PropValue) : strict_equal a b = false <-> a <> b.
Proof.
  rewrite <- strict_equal_eq. destruct (strict_equal a b); split; congruence.
Qed.

(** C10. [createStatsNoter] returns the no-op noter (noting a compilation
    with it does nothing) when the
    [compilationStatsNotifier] setting is exactly [none], a freshly
    constructed S3-backed noter when it is exactly [S3], and throws an
    "Unknown stats type" error for every other value (the empty default of
    an absent setting too); the parameterised value of the production
    settings is one of those other values. *)
Theorem createStatsNoter_by_type (props : PropertyGetter) :
  let type := props_get props "compilationStatsNotifier" (PStr EmptyString) in
  (type = PStr "none" -> createStatsNoter props = Returns (NullStatsNoter, []))
  /\ (type = PStr "S3" ->
      createStatsNoter props
      = Returns (S3StatsNoter (fst (StatsNoter_constructor props)),
                 snd (StatsNoter_constructor props)))
  /\ (type <> PStr "none" -> type <> PStr "S3" ->
      createStatsNoter props
      = Throws ("Unknown stats type '" ++ display (Some type) ++ "'"))
  /\ createStatsNoter amazon_properties
     = Throws "Unknown stats type 'S3(compiler-explorer-logs,compile-stats,us-east-1,15m)'"
  /\ (forall getHash now handle request,
        IStatsNoter_noteCompilation getHash now handle request NullStatsNoter
        = (NullStatsNoter, [])).
Proof.
  intros type. unfold createStatsNoter. fold type. split; [|split; [|split; [|split]]];
    [| | | |reflexivity].
  - intros ->. reflexivity.
  - intros ->. cbn [strict_equal String.eqb Ascii.eqb Bool.eqb].
    destruct (StatsNoter_constructor props). reflexivity.
  - intros Hn Hs. apply strict_equal_neq in Hn, Hs. rewrite Hn, Hs. reflexivity.
  - vm_compute. reflexivity.
Qed.

Lemma createStatsNoter_by_type_witness :
  createStatsNoter {[ "compilationStatsNotifier" := PStr "none" ]}
  = Returns (NullStatsNoter, [])
  /\ (exists noter effects,
        createStatsNoter {[ "compilationStatsNotifier" := PStr "S3" ]}
        = Returns (S3StatsNoter noter, effects))
  /\ createStatsNoter {[ "compilationStatsNotifier" := PStr "s3" ]}
     = Throws "Unknown stats type 's3'"
  /\ createStatsNoter ∅ = Throws "Unknown stats type ''".
Proof.
  split; [|split; [|split]].
  - apply (createStatsNoter_by_type {[ "compilationStatsNotifier" := PStr "none" ]}).
    vm_compute. reflexivity.
  - eexists _, _.
    apply (createStatsNoter_by_type {[ "compilationStatsNotifier" := PStr "S3" ]}).
    vm_compute. reflexivity.
  - destruct (createStatsNoter_by_type {[ "compilationStatsNotifier" := PStr "s3" ]})
      as (_ & _ & H & _ & _).
    rewrite H; [reflexivity | vm_compute; discriminate | vm_compute; discriminate].
  - destruct (createStatsNoter_by_type ∅) as (_ & _ & H & _ & _).
    rewrite H; [reflexivity | vm_compute; discriminate | vm_compute; discriminate].
Defined.

(** ** The projection of a request *)

Lemma set_property_fresh (k : string) (v : JsValue) (o : JsObject) :
  ~ In k (List.map fst o) -> set_property k v o = (o ++ [(k, v)])%list.
Proof.
  induction o as [|[k' v'] o IH]; cbn [set_property List.map fst In app]; intros Hk.
  - reflexivity.
  - destruct (String.eqb_spec k k') as [->|_].
    + exfalso. apply Hk. now left.
    + rewrite IH; [reflexivity|]. intros Hin. apply Hk. now right.
Qed.

Lemma fromEntries_from (es : list (string * JsValue)) :
  forall o : JsObject,
    List.NoDup (List.map fst (o ++ es)) ->
    fold_left (fun o e => set_property (fst e) (snd e) o) es o = (o ++ es)%list.
Proof.
  induction es as [|[k v] es IH]; intros o Hnd; cbn [fold_left fst snd].
  - now rewrite app_nil_r.
  - rewrite set_property_fresh.
    + rewrite IH; rewrite <- app_assoc; [reflexivity | exact Hnd].
    + rewrite List.map_app in Hnd. cbn [List.map fst] in Hnd.
      apply List.NoDup_remove_2 in Hnd. intros Hin. apply Hnd.
      apply in_or_app. now left.
Qed.

(** Rebuilding an object from entries with distinct keys gives these very
    entries, in the same order. *)
Lemma Object_fromEntries_distinct (es : list (string * JsValue)) :
  List.NoDup (List.map fst es) -> Object_fromEntries es = es.
Proof. intros Hnd. unfold Object_fromEntries. now rewrite fromEntries_from. Qed.

Lemma is_boolean_entry_inv (e : string * JsValue) :
  is_boolean_entry e = true -> exists b, snd e = JBool b.
Proof.
  destruct e as [k v]. unfold is_boolean_entry. cbn [snd].
  destruct v; cbn; try discriminate. intros _. now eexists.
Qed.

Lemma NoDup_keys_filter (p : string * JsValue -> bool) (es : list (string * JsValue)) :
  List.NoDup (List.map fst es) -> List.NoDup (List.map fst (List.filter p es)).
Proof.
  induction es as [|e es IH]; cbn [List.filter List.map]; intros Hnd.
  - constructor.
  - apply List.NoDup_cons_iff in Hnd as [Hn Hnd].
    destruct (p e); cbn [List.map]; [|now apply IH].
    constructor; [|now apply IH].
    intros Hin. apply Hn. apply List.in_map_iff in Hin as (x & Hx & Hin).
    apply List.filter_In in Hin as [Hin _]. apply List.in_map_iff. now exists x.
Qed.

Section Projection.

Variable getHash : JsValue -> string.

(** The record is a function of the two digests and of the three fields
    copied or filtered: the source and the execution parameters reach it
    through [getHash] only. *)
Lemma makeSafe_through_hashes (t : JsDate.Date) (r1 r2 : ParsedRequest.t) :
  getHash (JString (ParsedRequest.source r1)) = getHash (JString (ParsedRequest.source r2)) ->
  getHash (ParsedRequest.executionParameters r1)
  = getHash (ParsedRequest.executionParameters r2) ->
  ParsedRequest.options r1 = ParsedRequest.options r2 ->
  ParsedRequest.filters r1 = ParsedRequest.filters r2 ->
  ParsedRequest.bypassCache r1 = ParsedRequest.bypassCache r2 ->
  makeSafe getHash t r1 = makeSafe getHash t r2.
Proof. intros Hs He Ho Hf Hb. unfold makeSafe. now rewrite Hs, He, Ho, Hf, Hb. Qed.

(** The filters kept are the boolean ones of the request, in order. *)
Lemma makeSafe_filters_boolean (t : JsDate.Date) (r : ParsedRequest.t) :
  List.NoDup (List.map fst (ParsedRequest.filters r)) ->
  CompilationRecord.filters (makeSafe getHash t r)
  = List.filter is_boolean_entry (ParsedRequest.filters r)
  /\ Forall (fun e => exists b, snd e = JBool b)
            (CompilationRecord.filters (makeSafe getHash t r)).
Proof.
  intros Hnd. cbn [makeSafe CompilationRecord.filters]. unfold Object_entries.
  rewrite Object_fromEntries_distinct by now apply NoDup_keys_filter.
  split; [reflexivity|]. apply List.Forall_forall. intros e He.
  apply List.filter_In in He as [_ He]. now apply is_boolean_entry_inv.
Qed.

(** C2. The projection kept for statistics is determined by the declared
    fields alone: two requests that agree on source, execution parameters,
    options, filters and cache bypass give the same record at the same
    time, whatever else they carry; and the record holds the source and the
    execution parameters as the digests [getHash] makes of them, next to the
    time, the filtered options, the filters and the bypass flag, and nothing
    more: a request whose source and execution parameters merely have the
    same digests gives the same record again. *)
Theorem makeSafe_determined_by_declared_fields
    (t : JsDate.Date) (r1 r2 : ParsedRequest.t) :
  ParsedRequest.source r1 = ParsedRequest.source r2 ->
  ParsedRequest.executionParameters r1 = ParsedRequest.executionParameters r2 ->
  ParsedRequest.options r1 = ParsedRequest.options r2 ->
  ParsedRequest.filters r1 = ParsedRequest.filters r2 ->
  ParsedRequest.bypassCache r1 = ParsedRequest.bypassCache r2 ->
  makeSafe getHash t r1 = makeSafe getHash t r2
  /\ makeSafe getHash t r1
     = {| CompilationRecord.time := JsDate.toISOString t;
          CompilationRecord.sourceHash := getHash (JString (ParsedRequest.source r1));
          CompilationRecord.executionParamsHash :=
            getHash (ParsedRequest.executionParameters r1);
          CompilationRecord.options := filterCompilerOptions (ParsedRequest.options r1);
          CompilationRecord.filters :=
            Object_fromEntries (List.filter is_boolean_entry (ParsedRequest.filters r1));
          CompilationRecord.bypassCache := ParsedRequest.bypassCache r1 |}
  /\ (forall r3 : ParsedRequest.t,
        getHash (JString (ParsedRequest.source r3))
        = getHash (JString (ParsedRequest.source r1)) ->
        getHash (ParsedRequest.executionParameters r3)
        = getHash (ParsedRequest.executionParameters r1) ->
        ParsedRequest.options r3 = ParsedRequest.options r1 ->
        ParsedRequest.filters r3 = ParsedRequest.filters r1 ->
        ParsedRequest.bypassCache r3 = ParsedRequest.bypassCache r1 ->
        makeSafe getHash t r3 = makeSafe getHash t r1).
Proof.
  intros Hs He Ho Hf Hb. split; [|split].
  - apply makeSafe_through_hashes; congruence.
  - reflexivity.
  - intros r3. apply makeSafe_through_hashes.
Qed.

End Projection.

Example makeSafe_request_a :
  makeSafe toy_hash mid_january request_a
  = {| CompilationRecord.time := "2023-01-15T00:00:00.000Z";
       CompilationRecord.sourceHash := "s24";
       CompilationRecord.executionParamsHash := "object";
       CompilationRecord.options := ["-O2"; "-Wall"];
       CompilationRecord.filters := [("binary", JBool false); ("labels", JBool true)];
       CompilationRecord.bypassCache := BypassNone |}.
Proof. reflexivity. Qed.

Lemma makeSafe_determined_witness :
  makeSafe toy_hash mid_january request_a = makeSafe toy_hash mid_january request_b
  /\ CompilationRecord.sourceHash (makeSafe toy_hash mid_january request_a) = "s24"
  /\ makeSafe toy_hash mid_january request_c = makeSafe toy_hash mid_january request_a.
Proof.
  destruct (makeSafe_determined_by_declared_fields toy_hash mid_january request_a request_b)
    as (Hsame & Hshape & Hdigest); try reflexivity.
  split; [exact Hsame|]. split; [rewrite Hshape; reflexivity|].
  apply Hdigest; reflexivity.
Defined.

(** ** The buffering noter *)

Section Noter.

Variable getHash : JsValue -> string.
Variable JSON_stringify : CompilationRecord.t -> string.

Lemma noteCompilation_queue (now : JsDate.Date) (handle : Timeout)
    (request : ParsedRequest.t) (this : StatsNoter) :
  _statsQueue (fst (noteCompilation getHash now handle request this))
  = (_statsQueue this ++ [makeSafe getHash now request])%list.
Proof. unfold noteCompilation. cbn. now destruct (_flushJob this). Qed.

Lemma noteCompilation_effects (now : JsDate.Date) (handle : Timeout)
    (request : ParsedRequest.t) (this : StatsNoter) :
  snd (noteCompilation getHash now handle request this)
  = match _flushJob this with
    | None => [setTimeout handle (_flushAfterMs this)]
    | Some _ => []
    end.
Proof. unfold noteCompilation. cbn. now destruct (_flushJob this). Qed.

Lemma noteCompilation_keeps (now : JsDate.Date) (handle : Timeout)
    (request : ParsedRequest.t) (this : StatsNoter) :
  let after := fst (noteCompilation getHash now handle request this) in
  _flushAfterMs after = _flushAfterMs this
  /\ _s3 after = _s3 this
  /\ _path after = _path this
  /\ _flushJob after = Some (match _flushJob this with
                             | None => handle
                             | Some job => job
                             end).
Proof.
  unfold noteCompilation, set_flushJob, set_statsQueue. cbn.
  destruct (_flushJob this); cbn; repeat split.
Qed.

(** C6. Whatever the queue and the request, [noteCompilation] appends
    exactly one record, the projection of the request at the current time,
    at the end of the queue; every record queued before stays where it was;
    no write to the object store is issued; and nothing else of the noter
    changes, except that a flush timer is scheduled (and its handle kept)
    when none is pending. *)
Theorem noteCompilation_frame (now : JsDate.Date) (handle : Timeout)
    (request : ParsedRequest.t) (this : StatsNoter) :
  let after := fst (noteCompilation getHash now handle request this) in
  let effects := snd (noteCompilation getHash now handle request this) in
  _statsQueue after = (_statsQueue this ++ [makeSafe getHash now request])%list
  /\ List.length (_statsQueue after) = S (List.length (_statsQueue this))
  /\ (forall (i : nat) (r : CompilationRecord.t),
        _statsQueue this !! i = Some r -> _statsQueue after !! i = Some r)
  /\ List.filter is_put effects = []
  /\ _flushAfterMs after = _flushAfterMs this
  /\ _s3 after = _s3 this
  /\ _path after = _path this
  /\ match _flushJob this with
     | None => _flushJob after = Some handle
               /\ effects = [setTimeout handle (_flushAfterMs this)]
     | Some job => _flushJob after = Some job /\ effects = []
     end.
Proof.
  intros after effects. subst after effects.
  rewrite noteCompilation_queue, noteCompilation_effects.
  split; [reflexivity|]. split.
  { rewrite List.length_app. cbn. lia. }
  split.
  { intros i r Hi. now apply lookup_app_l_Some. }
  destruct (noteCompilation_keeps now handle request this) as (Hms & Hs3 & Hpath & Hjob).
  split; [now destruct (_flushJob this)|].
  split; [exact Hms|]. split; [exact Hs3|]. split; [exact Hpath|].
  rewrite Hjob. now destruct (_flushJob this).
Qed.

Lemma flush_queue (now : JsDate.Date) (this : StatsNoter) :
  _statsQueue (fst (flush JSON_stringify now this)) = [].
Proof. unfold flush. cbn. now destruct (_flushJob this). Qed.

Lemma flush_effects (now : JsDate.Date) (this : StatsNoter) :
  snd (flush JSON_stringify now this)
  = (S3_put (_s3 this) (makeKey now)
       (Buffer_from (String.concat newline (List.map JSON_stringify (_statsQueue this))))
       (_path this) {| redundancy := REDUCED_REDUNDANCY |}
     :: match _flushJob this with
        | Some job => [clearTimeout job]
        | None => []
        end)%list.
Proof. unfold flush. cbn. now destruct (_flushJob this). Qed.

Lemma flush_frame (now : JsDate.Date) (this : StatsNoter) :
  let after := fst (flush JSON_stringify now this) in
  _flushAfterMs after = _flushAfterMs this
  /\ _flushJob after = None
  /\ _s3 after = _s3 this
  /\ _path after = _path this.
Proof.
  unfold flush, set_flushJob, set_statsQueue. cbn.
  destruct (_flushJob this); cbn; repeat split.
Qed.

(** C4. After every call to [flush] the queue is empty, whether the write
    to the object store later succeeds or fails: the call that issues the
    write leaves the queue empty; the continuations of the write change
    nothing of the noter, whatever state it is in when they run, so the
    records written are never put back; a success does nothing at all and a
    failure only logs a warning, without another write. *)
Theorem flush_clears_and_never_retries (now later : JsDate.Date) (outcome : Settled)
    (this between : StatsNoter) :
  _statsQueue (fst (flush JSON_stringify now this)) = []
  /\ fst (put_settled later outcome (fst (flush JSON_stringify now this)))
     = fst (flush JSON_stringify now this)
  /\ _statsQueue (fst (put_settled later outcome (fst (flush JSON_stringify now this)))) = []
  /\ fst (put_settled later outcome between) = between
  /\ snd (put_settled later outcome between)
     = match outcome with
       | Fulfilled => []
       | Rejected e =>
           [logger_warn ("Caught exception trying to log compilations to "
                         ++ makeKey later ++ ": " ++ e)]
       end
  /\ List.filter is_put (snd (put_settled later outcome between)) = [].
Proof.
  assert (Hid : forall s, fst (put_settled later outcome s) = s)
    by (intros s; now destruct outcome).
  rewrite !Hid, flush_queue. repeat split; now destruct outcome.
Qed.

(** *** The event loop *)

Lemma perform_all_history (effects : list Effect) :
  forall w : World, history (fold_left perform effects w) = (history w ++ effects)%list.
Proof.
  induction effects as [|e effects IH]; intros w; cbn [fold_left].
  - now rewrite app_nil_r.
  - rewrite IH. destruct e; cbn [perform history]; now rewrite <- app_assoc.
Qed.

Lemma perform_all_noter (effects : list Effect) :
  forall w : World, noter (fold_left perform effects w) = noter w.
Proof.
  induction effects as [|e effects IH]; intros w; cbn [fold_left]; [reflexivity|].
  rewrite IH. now destruct e.
Qed.

Lemma commit_history (w : World) (result : StatsNoter * list Effect) :
  history (commit w result) = (history w ++ snd result)%list.
Proof. unfold commit. now rewrite perform_all_history. Qed.

Lemma commit_noter (w : World) (result : StatsNoter * list Effect) :
  noter (commit w result) = fst result.
Proof. unfold commit. now rewrite perform_all_noter. Qed.

(** What one turn of the loop does to the noter and to the history. *)
Lemma step_inv (w w' : World) (ev : Event) :
  step getHash JSON_stringify w ev = Some w' ->
  match ev with
  | Note now request =>
      noter w' = fst (noteCompilation getHash now (next_handle w) request (noter w))
      /\ history w'
         = (history w
            ++ snd (noteCompilation getHash now (next_handle w) request (noter w)))%list
  | TimerFires now handle =>
      In handle (armed w)
      /\ noter w' = fst (flush JSON_stringify now (noter w))
      /\ history w' = (history w ++ snd (flush JSON_stringify now (noter w)))%list
  | PutSettles now outcome =>
      (0 < writes_pending w)%nat
      /\ noter w' = noter w
      /\ history w' = (history w ++ snd (put_settled now outcome (noter w)))%list
  end.
Proof.
  destruct ev as [now request|now handle|now outcome]; cbn [step].
  - intros [= <-]. now rewrite commit_noter, commit_history.
  - destruct (existsb (Nat.eqb handle) (armed w)) eqn:E; [|discriminate].
    intros [= <-]. rewrite commit_noter, commit_history. cbn [noter history].
    split; [|now split].
    apply List.existsb_exists in E as (h & Hin & Heq).
    apply Nat.eqb_eq in Heq. now subst h.
  - destruct (writes_pending w) as [|n] eqn:E; [discriminate|].
    intros [= <-]. rewrite commit_noter, commit_history. cbn [noter history].
    split; [lia|]. split; [now destruct outcome | reflexivity].
Qed.

(** C3, as the program has it. The buffer is flushed and cleared in one
    step, and only when the flush timer fires: that turn of the loop writes
    every queued record and leaves the queue empty. There is no size
    threshold: a turn that notes a compilation makes the queue one record
    longer and issues no write, however long the queue already is, and a
    turn that settles a write touches neither the queue nor the store. *)
Theorem flush_only_when_timer_fires (w w' : World) (ev : Event) :
  step getHash JSON_stringify w ev = Some w' ->
  match ev with
  | Note now request =>
      _statsQueue (noter w') = (_statsQueue (noter w) ++ [makeSafe getHash now request])%list
      /\ exists effects,
           history w' = (history w ++ effects)%list /\ List.filter is_put effects = []
  | TimerFires now handle =>
      _statsQueue (noter w') = []
      /\ exists rest,
           history w'
           = (history w
              ++ S3_put (_s3 (noter w)) (makeKey now)
                   (Buffer_from
                      (String.concat newline
                         (List.map JSON_stringify (_statsQueue (noter w)))))
                   (_path (noter w)) {| redundancy := REDUCED_REDUNDANCY |}
                 :: rest)%list
           /\ List.filter is_put rest = []
  | PutSettles now outcome =>
      _statsQueue (noter w') = _statsQueue (noter w)
      /\ exists effects,
           history w' = (history w ++ effects)%list /\ List.filter is_put effects = []
  end.
Proof.
  intros Hstep. apply step_inv in Hstep.
  destruct ev as [now request|now handle|now outcome].
  - destruct Hstep as [-> ->]. rewrite noteCompilation_queue. split; [reflexivity|].
    eexists. split; [reflexivity|]. rewrite noteCompilation_effects.
    now destruct (_flushJob (noter w)).
  - destruct Hstep as (_ & -> & ->). rewrite flush_queue. split; [reflexivity|].
    rewrite flush_effects. eexists. split; [reflexivity|].
    now destruct (_flushJob (noter w)).
  - destruct Hstep as (_ & -> & ->). split; [reflexivity|].
    eexists. split; [reflexivity|]. now destruct outcome.
Qed.

(** C5, the part the program keeps: each flush issues exactly one write;
    its body is the serialised records joined by newlines, one per noted
    compilation in the order noted; it goes to the configured path with the
    reduced-redundancy storage class. The key however numbers the months
    from 0 while it numbers the days from 1: it has the form
    year=Y/month=M/date=D/ISO.json with M between 0 and 11, one less than
    the calendar month that the timestamp in the very same key shows; a
    flush on 15 January 2023 writes under month=0. *)
Theorem flush_key_counts_months_from_zero (this : StatsNoter) :
  (forall now : JsDate.Date,
     exists rest,
       snd (flush JSON_stringify now this)
       = S3_put (_s3 this) (makeKey now)
           (Buffer_from
              (String.concat newline (List.map JSON_stringify (_statsQueue this))))
           (_path this) {| redundancy := REDUCED_REDUNDANCY |}
         :: rest
       /\ List.filter is_put rest = [])
  /\ (forall now : JsDate.Date,
        0 <= JsDate.getUTCMonth now <= 11 /\ 1 <= JsDate.getUTCDate now <= 31)
  /\ makeKey mid_january = "year=2023/month=0/date=15/2023-01-15T00:00:00.000Z.json"
  /\ (exists rest,
        snd (flush JSON_stringify mid_january this)
        = S3_put (_s3 this) "year=2023/month=0/date=15/2023-01-15T00:00:00.000Z.json"
            (Buffer_from
               (String.concat newline (List.map JSON_stringify (_statsQueue this))))
            (_path this) {| redundancy := REDUCED_REDUNDANCY |}
          :: rest).
Proof.
  split; [|split; [|split]].
  - intros now. rewrite flush_effects. eexists. split; [reflexivity|].
    now destruct (_flushJob this).
  - intros now. split; [apply MonthFromTime_range | apply DateFromTime_range].
  - reflexivity.
  - rewrite flush_effects. eexists. reflexivity.
Qed.

(** Noting compilations one after the other queues their projections in
    that order. *)
Lemma queue_after_notes (notes : list (JsDate.Date * ParsedRequest.t)) :
  forall w : World,
    exists w' : World,
      run getHash JSON_stringify w (List.map (fun n => Note (fst n) (snd n)) notes) = Some w'
      /\ _statsQueue (noter w')
         = (_statsQueue (noter w)
            ++ List.map (fun n => makeSafe getHash (fst n) (snd n)) notes)%list.
Proof.
  induction notes as [|[now request] notes IH]; intros w; cbn [List.map run fst snd].
  - exists w. now rewrite app_nil_r.
  - cbn [step].
    destruct (IH (commit w (noteCompilation getHash now (next_handle w) request (noter w))))
      as (w' & Hrun & Hq).
    exists w'. split; [exact Hrun|].
    rewrite Hq, commit_noter, noteCompilation_queue, <- app_assoc. reflexivity.
Qed.

(** *** The flush interval *)

Lemma boot_interval (props : PropertyGetter) :
  interval_is (props_get props "compilationStatsNotifierFlushMs" (PNum (5 * 60 * 1000)))
              (boot props).
Proof.
  unfold boot, StatsNoter_constructor, interval_is. rewrite commit_noter, commit_history.
  cbn [fst snd _flushAfterMs history app]. split; [reflexivity|].
  intros handle ms [H|[]]. discriminate.
Qed.

Lemma step_interval (v : PropValue) (w w' : World) (ev : Event) :
  interval_is v w -> step getHash JSON_stringify w ev = Some w' -> interval_is v w'.
Proof.
  intros [Hv Hh] Hstep. apply step_inv in Hstep. unfold interval_is.
  destruct ev as [now request|now handle|now outcome].
  - destruct Hstep as [-> ->]. split.
    + destruct (noteCompilation_keeps now (next_handle w) request (noter w))
        as (-> & _). exact Hv.
    + intros h ms Hin. apply in_app_or in Hin as [Hin|Hin]; [now apply (Hh h)|].
      rewrite noteCompilation_effects in Hin.
      destruct (_flushJob (noter w)); [destruct Hin|].
      destruct Hin as [[= _ <-]|[]]. exact Hv.
  - destruct Hstep as (_ & -> & ->). split.
    + destruct (flush_frame now (noter w)) as (-> & _). exact Hv.
    + intros h ms Hin. apply in_app_or in Hin as [Hin|Hin]; [now apply (Hh h)|].
      rewrite flush_effects in Hin. destruct Hin as [Hin|Hin]; [discriminate|].
      destruct (_flushJob (noter w)); [|destruct Hin].
      destruct Hin as [Hin|[]]. discriminate.
  - destruct Hstep as (_ & -> & ->). split; [exact Hv|].
    intros h ms Hin. apply in_app_or in Hin as [Hin|Hin]; [now apply (Hh h)|].
    destruct outcome; [destruct Hin|]. destruct Hin as [Hin|[]]. discriminate.
Qed.

Lemma run_interval (v : PropValue) (evs : list Event) :
  forall w w' : World,
    interval_is v w -> run getHash JSON_stringify w evs = Some w' -> interval_is v w'.
Proof.
  induction evs as [|ev evs IH]; intros w w' Hw; cbn [run].
  - now intros [= <-].
  - destruct (step getHash JSON_stringify w ev) as [w1|] eqn:E; [|discriminate].
    apply IH. now apply (step_interval v w w1 ev).
Qed.

(** C8. The flush interval is the operator's to set and defaults to five
    minutes: however the noter is used after its construction, when the
    [compilationStatsNotifierFlushMs] setting is absent the interval it
    holds, and the delay of every flush timer it has scheduled, is exactly
    300000 milliseconds, and the next compilation noted with no timer
    pending schedules the flush with that delay; when the setting is
    present, its value takes the place of the default. *)
Theorem flush_interval_default_five_minutes
    (props : PropertyGetter) (evs : list Event) (w : World) :
  run getHash JSON_stringify (boot props) evs = Some w ->
  (props !! "compilationStatsNotifierFlushMs" = None ->
     _flushAfterMs (noter w) = PNum 300000
     /\ (forall handle ms, In (setTimeout handle ms) (history w) -> ms = PNum 300000)
     /\ (forall now request,
           _flushJob (noter w) = None ->
           snd (noteCompilation getHash now (next_handle w) request (noter w))
           = [setTimeout (next_handle w) (PNum 300000)]))
  /\ (forall v,
        props !! "compilationStatsNotifierFlushMs" = Some v ->
        _flushAfterMs (noter w) = v
        /\ (forall handle ms, In (setTimeout handle ms) (history w) -> ms = v)).
Proof.
  intros Hrun.
  pose proof (run_interval _ evs _ _ (boot_interval props) Hrun) as [Hv Hh].
  unfold props_get in Hv, Hh. split.
  - intros Habsent. rewrite Habsent in Hv, Hh. change (5 * 60 * 1000) with 300000 in *.
    split; [exact Hv|]. split; [exact Hh|].
    intros now request Hjob. rewrite noteCompilation_effects, Hjob, Hv. reflexivity.
  - intros v Hpresent. rewrite Hpresent in Hv, Hh. now split.
Qed.

End Noter.

(** C3, as the design words it, fails: there is no state of the noter,
    whatever the length of its queue, in which noting a compilation issues
    a write or leaves the queue empty. *)
Lemma no_size_threshold :
  ~ exists (getHash : JsValue -> string) (n : nat) (now : JsDate.Date) (handle : Timeout)
           (request : ParsedRequest.t) (this : StatsNoter),
      List.length (_statsQueue this) = n
      /\ note_flushes getHash now handle request this.
Proof.
  intros (getHash & n & now & handle & request & this & _ & [Hput|Hempty]).
  - rewrite noteCompilation_effects in Hput. apply Hput.
    now destruct (_flushJob this).
  - rewrite noteCompilation_queue in Hempty.
    apply app_eq_nil in Hempty as [_ Hempty]. discriminate.
Qed.

Lemma noteCompilation_frame_witness :
  _statsQueue (fst (noteCompilation toy_hash five_minutes_later 7%nat request_b busy_noter))
  !! 0%nat
  = Some (makeSafe toy_hash mid_january request_a).
Proof.
  pose proof (noteCompilation_frame toy_hash five_minutes_later 7%nat request_b busy_noter)
    as H.
  cbv zeta in H. destruct H as (_ & _ & H & _). apply H. reflexivity.
Defined.

Example sample_history :
  option_map history (run toy_hash toy_stringify (boot ∅) sample_events)
  = Some
      [logger_info "Flushing stats to undefined/compile-stats every 300000ms";
       setTimeout 0%nat (PNum 300000);
       S3_put {| s3_bucket := None; s3_region := PStr "us-east-1" |}
         "year=2023/month=0/date=15/2023-01-15T00:05:00.000Z.json"
         ("{2023-01-15T00:00:00.000Z,s24}" ++ newline ++ "{2023-01-15T00:00:00.000Z,s24}")
         (PStr "compile-stats") {| redundancy := REDUCED_REDUNDANCY |};
       clearTimeout 0%nat;
       logger_warn
         ("Caught exception trying to log compilations to "
          ++ "year=2023/month=0/date=15/2023-01-15T00:05:00.000Z.json: AccessDenied");
       setTimeout 1%nat (PNum 300000)].
Proof. vm_compute. reflexivity. Qed.

Lemma flush_only_when_timer_fires_witness :
  exists w1 w2 : World,
    run toy_hash toy_stringify (boot ∅) [Note mid_january request_a; Note mid_january request_b]
    = Some w1
    /\ List.length (_statsQueue (noter w1)) = 2%nat
    /\ step toy_hash toy_stringify w1 (TimerFires five_minutes_later 0%nat) = Some w2
    /\ _statsQueue (noter w2) = [].
Proof.
  destruct (run toy_hash toy_stringify (boot ∅)
              [Note mid_january request_a; Note mid_january request_b])
    as [w1|] eqn:E1; [|vm_compute in E1; discriminate].
  destruct (step toy_hash toy_stringify w1 (TimerFires five_minutes_later 0%nat))
    as [w2|] eqn:E2.
  - exists w1, w2. split; [reflexivity|]. split.
    + vm_compute in E1. injection E1 as <-. reflexivity.
    + split; [exact E2|].
      exact (proj1 (flush_only_when_timer_fires toy_hash toy_stringify w1 w2
                      (TimerFires five_minutes_later 0%nat) E2)).
  - exfalso. vm_compute in E1. injection E1 as <-. vm_compute in E2. discriminate.
Defined.

Lemma flush_interval_default_witness :
  exists w : World,
    run toy_hash toy_stringify (boot ∅) sample_events = Some w
    /\ _flushAfterMs (noter w) = PNum 300000
    /\ List.filter (fun e => match e with setTimeout _ _ => true | _ => false end) (history w)
       = [setTimeout 0%nat (PNum 300000); setTimeout 1%nat (PNum 300000)].
Proof.
  destruct (run toy_hash toy_stringify (boot ∅) sample_events) as [w|] eqn:E;
    [|vm_compute in E; discriminate].
  exists w. split; [reflexivity|]. split.
  - destruct (flush_interval_default_five_minutes toy_hash toy_stringify ∅ sample_events w E)
      as [Hdefault _].
    apply Hdefault. reflexivity.
  - vm_compute in E. injection E as <-. reflexivity.
Defined.

(** ** The registry of outstanding work *)

Lemma in_keys_filter {A B : Type} (p : A -> bool) (l : list (A * B)) (k : A) :
  In k (List.map fst (List.filter (fun e => p (fst e)) l))
  <-> In k (List.map fst l) /\ p k = true.
Proof.
  induction l as [|[a b] l IH]; cbn [List.filter List.map fst In].
  - tauto.
  - destruct (p a) eqn:E; cbn [List.map fst In]; rewrite IH; split.
    + intros [<-|[H1 H2]]; auto.
    + intros [[<-|H1] H2]; auto.
    + intros [H1 H2]; auto.
    + intros [[<-|H1] H2]; [congruence | auto].
Qed.

Lemma NoDup_keys_filter_fst {A B : Type} (p : A -> bool) (l : list (A * B)) :
  List.NoDup (List.map fst l) ->
  List.NoDup (List.map fst (List.filter (fun e => p (fst e)) l)).
Proof.
  induction l as [|[a b] l IH]; cbn [List.filter List.map fst]; intros Hnd.
  - constructor.
  - apply List.NoDup_cons_iff in Hnd as [Hn Hnd].
    destruct (p a); cbn [List.map fst]; [|now apply IH].
    constructor; [|now apply IH].
    intros Hin. apply in_keys_filter in Hin as [Hin _]. contradiction.
Qed.

Module OrchestratorFacts.
Import Orchestrator.

Lemma initial_consistent : consistent initial.
Proof.
  split; [constructor|]. intros f. cbn. rewrite lookup_empty. split.
  - intros [].
  - intros [u Hu]. discriminate.
Qed.

Lemma arrive_consistent (who : Caller) (f : Fingerprint) (on : Backend) (s : State) :
  consistent s -> consistent (arrive who f on s).
Proof.
  intros [Hnd Hreg]. unfold arrive.
  destruct (registry s !! f) as [u|] eqn:E; split; cbn [running registry List.map fst].
  - exact Hnd.
  - intros g. rewrite Hreg. destruct (decide (f = g)) as [->|Hne].
    + rewrite lookup_insert_eq, E. split; intros _; eauto.
    + now rewrite lookup_insert_ne.
  - constructor; [|exact Hnd]. rewrite Hreg, E. intros [u Hu]. discriminate.
  - intros g. cbn [In]. rewrite Hreg. destruct (decide (f = g)) as [->|Hne].
    + rewrite lookup_insert_eq. split; eauto.
    + rewrite lookup_insert_ne by exact Hne. split; [|now right].
      intros [Heq|H]; [contradiction | exact H].
Qed.

Lemma remove_consistent (f : Fingerprint) (s : State) :
  consistent s -> consistent (remove f s).
Proof.
  intros [Hnd Hreg]. unfold remove. split; cbn [running registry].
  - now apply (NoDup_keys_filter_fst (fun k => negb (String.eqb k f))).
  - intros g. rewrite (in_keys_filter (fun k => negb (String.eqb k f))), Hreg.
    destruct (String.eqb_spec g f) as [->|Hne]; cbn [negb].
    + rewrite lookup_delete_eq. split.
      * intros [_ H]. discriminate.
      * intros [u Hu]. discriminate.
    + rewrite lookup_delete_ne by congruence. tauto.
Qed.

Lemma step_consistent (s : State) (ev : Event) : consistent s -> consistent (step s ev).
Proof.
  destruct ev; cbn [step]; auto using arrive_consistent, remove_consistent.
Qed.

Lemma run_from_consistent (evs : list Event) :
  forall s : State, consistent s -> consistent (fold_left step evs s).
Proof.
  induction evs as [|ev evs IH]; intros s Hs; cbn [fold_left]; [exact Hs|].
  apply IH. now apply step_consistent.
Qed.

Lemma count_key_absent {B : Type} (f : Fingerprint) (l : list (Fingerprint * B)) :
  ~ In f (List.map fst l) ->
  List.length (List.filter (fun fw => String.eqb (fst fw) f) l) = 0%nat.
Proof.
  induction l as [|[g b] l IH]; cbn [List.filter List.map fst In]; intros Hn.
  - reflexivity.
  - destruct (String.eqb_spec g f) as [->|Hne].
    + exfalso. apply Hn. now left.
    + apply IH. intros H. apply Hn. now right.
Qed.

Lemma count_key_present {B : Type} (f : Fingerprint) (l : list (Fingerprint * B)) :
  List.NoDup (List.map fst l) ->
  In f (List.map fst l) ->
  List.length (List.filter (fun fw => String.eqb (fst fw) f) l) = 1%nat.
Proof.
  induction l as [|[g b] l IH]; cbn [List.filter List.map fst In]; intros Hnd Hin.
  - destruct Hin.
  - apply List.NoDup_cons_iff in Hnd as [Hn Hnd].
    destruct (String.eqb_spec g f) as [->|Hne].
    + cbn [List.length]. now rewrite count_key_absent.
    + destruct Hin as [Heq|Hin]; [contradiction|]. now apply IH.
Qed.

(** C1. In every state the registry can reach, each fingerprint has at
    most one invocation of the compiler driver or of a remote worker under
    way, and it has one exactly when a unit of work is registered for it; a
    request that arrives while its fingerprint is registered starts nothing:
    it is attached to the unit that is there, whose work stays the same; a
    request whose fingerprint is not registered (never asked for, completed
    or abandoned) starts exactly one invocation. *)
Theorem one_unit_of_work_per_fingerprint (evs : list Event) :
  let s := run evs in
  (forall f, (concurrent f s <= 1)%nat)
  /\ (forall f, concurrent f s = 1%nat <-> is_Some (registry s !! f))
  /\ (forall who f on u,
        registry s !! f = Some u ->
        let s' := step s (Arrives who f on) in
        running s' = running s
        /\ invoked s' = invoked s
        /\ concurrent f s' = 1%nat
        /\ registry s' !! f = Some {| work := work u; attached := who :: attached u |})
  /\ (forall who f on,
        registry s !! f = None ->
        let s' := step s (Arrives who f on) in
        running s' = (f, start on (next_job s)) :: running s
        /\ invoked s' = S (invoked s)
        /\ concurrent f s = 0%nat
        /\ concurrent f s' = 1%nat
        /\ registry s' !! f = Some {| work := start on (next_job s); attached := [who] |}).
Proof.
  intros s.
  assert (Hs : consistent s) by (apply run_from_consistent, initial_consistent).
  assert (Hcount : forall t f, consistent t ->
            (is_Some (registry t !! f) -> concurrent f t = 1%nat)
            /\ (registry t !! f = None -> concurrent f t = 0%nat)).
  { intros t f [Hnd Hreg]. unfold concurrent. split.
    - intros H. apply count_key_present; [exact Hnd | now apply Hreg].
    - intros H. apply count_key_absent. rewrite Hreg, H. intros [u Hu]. discriminate. }
  split; [|split; [|split]].
  - intros f. destruct (Hcount s f Hs) as [H1 H0].
    destruct (registry s !! f) eqn:E; [rewrite H1 by eauto | rewrite H0 by reflexivity]; lia.
  - intros f. destruct (Hcount s f Hs) as [H1 H0]. split; [|exact H1].
    destruct (registry s !! f) eqn:E; [eauto|]. rewrite H0 by reflexivity. discriminate.
  - intros who f on u Hu s'.
    assert (Hs' : consistent s') by now apply step_consistent.
    assert (Hreg' : registry s' !! f
                    = Some {| work := work u; attached := who :: attached u |}).
    { subst s'. cbn [step]. unfold arrive. rewrite Hu. cbn [registry].
      apply lookup_insert_eq. }
    repeat split.
    + subst s'. cbn [step]. unfold arrive. now rewrite Hu.
    + subst s'. cbn [step]. unfold arrive. now rewrite Hu.
    + apply (Hcount s' f Hs'). rewrite Hreg'. eauto.
    + exact Hreg'.
  - intros who f on Hnone s'.
    assert (Hs' : consistent s') by now apply step_consistent.
    assert (Hreg' : registry s' !! f
                    = Some {| work := start on (next_job s); attached := [who] |}).
    { subst s'. cbn [step]. unfold arrive. rewrite Hnone. cbn [registry].
      apply lookup_insert_eq. }
    repeat split.
    + subst s'. cbn [step]. unfold arrive. now rewrite Hnone.
    + subst s'. cbn [step]. unfold arrive. now rewrite Hnone.
    + now apply (Hcount s f Hs).
    + apply (Hcount s' f Hs'). rewrite Hreg'. eauto.
    + exact Hreg'.
Qed.

End OrchestratorFacts.

Lemma one_unit_of_work_witness :
  Orchestrator.concurrent "f1" (Orchestrator.run sample_arrivals) = 1%nat
  /\ Orchestrator.invoked
       (Orchestrator.step (Orchestrator.run sample_arrivals)
          (Orchestrator.Arrives 5%nat "f1" Orchestrator.Local))
     = Orchestrator.invoked (Orchestrator.run sample_arrivals)
  /\ Orchestrator.invoked
       (Orchestrator.step (Orchestrator.run sample_arrivals)
          (Orchestrator.Arrives 6%nat "f3" Orchestrator.Remote))
     = S (Orchestrator.invoked (Orchestrator.run sample_arrivals)).
Proof.
  destruct (OrchestratorFacts.one_unit_of_work_per_fingerprint sample_arrivals)
    as (_ & Hone & Hattach & Hfresh).
  split; [|split].
  - apply Hone. vm_compute. eauto.
  - eapply Hattach. vm_compute. reflexivity.
  - apply Hfresh. vm_compute. reflexivity.
Defined.

(** * Further properties *)

(** ** The option filter *)

(** X1. Filtering options twice changes nothing more: what the filter kept
    once it keeps again. *)
Theorem filterCompilerOptions_idempotent (args : list string) :
  filterCompilerOptions (filterCompilerOptions args) = filterCompilerOptions args.
Proof.
  unfold filterCompilerOptions. induction args as [|a args IH]; [reflexivity|].
  cbn [List.filter].
  destruct (Regex.exec capturableArg a && negb (Regex.exec unwantedArg a)) eqn:E.
  - cbn [List.filter]. rewrite E, IH. reflexivity.
  - exact IH.
Qed.

(** The filter works token by token: filtering a concatenation is
    concatenating the filtered parts. *)
Lemma filterCompilerOptions_app (xs ys : list string) :
  filterCompilerOptions (xs ++ ys)
  = (filterCompilerOptions xs ++ filterCompilerOptions ys)%list.
Proof. unfold filterCompilerOptions. apply List.filter_app. Qed.

(** ** The noter over whole runs *)

Lemma put_values_app (h1 h2 : list Effect) :
  put_values (h1 ++ h2) = (put_values h1 ++ put_values h2)%list.
Proof.
  induction h1 as [|e h1 IH]; [reflexivity|].
  destruct e; cbn [put_values app]; now rewrite IH.
Qed.

Lemma timers_set_app (h1 h2 : list Effect) :
  timers_set (h1 ++ h2) = (timers_set h1 + timers_set h2)%nat.
Proof.
  induction h1 as [|e h1 IH]; [reflexivity|].
  destruct e; cbn [timers_set app]; rewrite IH; lia.
Qed.

Section Runs.

Variable getHash : JsValue -> string.
Variable JSON_stringify : CompilationRecord.t -> string.

(** The timers the runtime holds after one turn of the loop. *)
Lemma step_armed (w w' : World) (ev : Event) :
  step getHash JSON_stringify w ev = Some w' ->
  armed w'
  = match ev with
    | Note _ _ =>
        match _flushJob (noter w) with
        | None => next_handle w :: armed w
        | Some _ => armed w
        end
    | TimerFires _ handle =>
        let left := List.filter (fun h => negb (Nat.eqb h handle)) (armed w) in
        match _flushJob (noter w) with
        | None => left
        | Some job => List.filter (fun h => negb (Nat.eqb h job)) left
        end
    | PutSettles _ _ => armed w
    end.
Proof.
  destruct ev as [now request|now handle|now outcome]; cbn [step].
  - intros [= <-]. unfold commit, noteCompilation, set_flushJob, set_statsQueue.
    cbn [_flushJob]. now destruct (_flushJob (noter w)).
  - destruct (existsb (Nat.eqb handle) (armed w)); [|discriminate].
    intros [= <-]. unfold commit, flush, set_flushJob, set_statsQueue.
    cbn [noter _flushJob]. now destruct (_flushJob (noter w)).
  - destruct (writes_pending w); [discriminate|].
    intros [= <-]. unfold commit. now destruct outcome.
Qed.

Lemma boot_accounted (props : PropertyGetter) :
  accounted JSON_stringify (boot props) [] [].
Proof.
  unfold accounted, boot, StatsNoter_constructor, commit. cbn.
  repeat split; constructor.
Qed.

(** One turn of the loop keeps the books: a note adds its record to the
    records noted, a timer turns the queue into one more batch. *)
Lemma step_accounted (w w' : World) (ev : Event)
    (noted : list CompilationRecord.t) (batches : list (list CompilationRecord.t)) :
  accounted JSON_stringify w noted batches ->
  step getHash JSON_stringify w ev = Some w' ->
  match ev with
  | Note now request =>
      accounted JSON_stringify w' (noted ++ [makeSafe getHash now request]) batches
  | TimerFires _ _ =>
      accounted JSON_stringify w' noted (batches ++ [_statsQueue (noter w)])
  | PutSettles _ _ => accounted JSON_stringify w' noted batches
  end.
Proof.
  intros (Hputs & Hne & Hall & Harmed & Hjob & Htimers) Hstep.
  pose proof (step_armed w w' ev Hstep) as Ha.
  apply step_inv in Hstep. unfold accounted.
  destruct ev as [now request|now handle|now outcome].
  - destruct Hstep as [Hn Hh]. rewrite Hh, Hn, Ha.
    rewrite put_values_app, timers_set_app, noteCompilation_queue, noteCompilation_effects.
    destruct (noteCompilation_keeps getHash now (next_handle w) request (noter w))
      as (_ & _ & _ & ->).
    destruct (_flushJob (noter w)) as [job|] eqn:E; cbn [put_values timers_set pending_timer].
    + rewrite app_nil_r, Hputs, Htimers, Harmed. cbn [pending_timer].
      repeat split; try assumption; try lia.
      * now rewrite app_assoc, Hall.
      * discriminate.
      * intros H. now apply app_eq_nil in H as [_ H].
    + rewrite app_nil_r, Hputs, Htimers, Harmed. cbn [pending_timer List.length].
      repeat split; try assumption; try lia.
      * now rewrite app_assoc, Hall.
      * discriminate.
      * intros H. now apply app_eq_nil in H as [_ H].
  - destruct Hstep as (Hin & Hn & Hh). rewrite Hh, Hn, Ha. cbv zeta.
    rewrite put_values_app, timers_set_app, flush_queue, flush_effects.
    destruct (flush_frame JSON_stringify now (noter w)) as (_ & -> & _).
    rewrite Harmed in Hin. rewrite Harmed.
    destruct (_flushJob (noter w)) as [job|] eqn:E; [|destruct Hin].
    destruct Hin as [->|[]]. cbn [pending_timer List.filter put_values timers_set].
    rewrite Nat.eqb_refl. cbn [negb].
    rewrite Hputs, Htimers, Harmed, List.map_app, List.length_app. cbn [List.map List.length].
    repeat split; try lia.
    + apply Forall_app. split; [exact Hne|]. constructor; [|constructor].
      intros Hq. apply Hjob in Hq. discriminate.
    + now rewrite List.concat_app, app_nil_r; cbn [List.concat]; rewrite app_nil_r.
  - destruct Hstep as (_ & Hn & Hh). rewrite Hh, Hn, Ha.
    rewrite put_values_app, timers_set_app.
    assert (Hp : put_values (snd (put_settled now outcome (noter w))) = []
                 /\ timers_set (snd (put_settled now outcome (noter w))) = 0%nat)
      by now destruct outcome.
    destruct Hp as [-> ->]. rewrite app_nil_r, Nat.add_0_r.
    repeat split; try assumption; apply Hjob.
Qed.

Lemma run_accounted (evs : list Event) :
  forall (w w' : World) (noted : list CompilationRecord.t)
         (batches : list (list CompilationRecord.t)),
    accounted JSON_stringify w noted batches ->
    run getHash JSON_stringify w evs = Some w' ->
    exists batches',
      accounted JSON_stringify w'
        (noted ++ List.map (fun n => makeSafe getHash (fst n) (snd n)) (notes_of evs))
        batches'.
Proof.
  induction evs as [|ev evs IH]; intros w w' noted batches Hw; cbn [run].
  - intros [= <-]. exists batches. cbn. now rewrite app_nil_r.
  - destruct (step getHash JSON_stringify w ev) as [w1|] eqn:E; [|discriminate].
    intros Hrun. pose proof (step_accounted w w1 ev noted batches Hw E) as H1.
    destruct ev as [now request|now handle|now outcome]; cbn [notes_of List.map fst snd].
    + destruct (IH _ _ _ _ H1 Hrun) as (b & Hb). exists b.
      now rewrite <- app_assoc in Hb.
    + exact (IH _ _ _ _ H1 Hrun).
    + exact (IH _ _ _ _ H1 Hrun).
Qed.

(** X2. No record is lost, duplicated or reordered on its way to the store:
    at any point of any run, the batches written so far, one write each and
    in the order written, followed by the records still queued, are exactly
    the projections of the compilations noted, in the order noted. *)
Theorem records_written_or_queued
    (props : PropertyGetter) (evs : list Event) (w : World) :
  run getHash JSON_stringify (boot props) evs = Some w ->
  exists batches : list (list CompilationRecord.t),
    put_values (history w) = List.map (batch_body JSON_stringify) batches
    /\ (List.concat batches ++ _statsQueue (noter w))%list
       = List.map (fun n => makeSafe getHash (fst n) (snd n)) (notes_of evs).
Proof.
  intros Hrun.
  destruct (run_accounted evs _ _ _ _ (boot_accounted props) Hrun)
    as (batches & Hputs & _ & Hall & _).
  exists batches. split; [exact Hputs | exact Hall].
Qed.

(** X3. The noter never writes an empty batch: in any run, every body
    written to the store serialises at least one record (the guard on the
    queue in [flush] lets an empty queue through, but the timer only runs
    when something has been noted). *)
Theorem no_empty_batch_written
    (props : PropertyGetter) (evs : list Event) (w : World) (value : string) :
  run getHash JSON_stringify (boot props) evs = Some w ->
  In value (put_values (history w)) ->
  exists (first : CompilationRecord.t) (others : list CompilationRecord.t),
    value = batch_body JSON_stringify (first :: others).
Proof.
  intros Hrun Hin.
  destruct (run_accounted evs _ _ _ _ (boot_accounted props) Hrun)
    as (batches & Hputs & Hne & _).
  rewrite Hputs in Hin. apply List.in_map_iff in Hin as (batch & <- & Hb).
  rewrite List.Forall_forall in Hne. specialize (Hne batch Hb).
  destruct batch as [|first others]; [contradiction|]. now exists first, others.
Qed.

(** X4. A flush timer is pending exactly when records are queued, and there
    is never more than one: in any run, the timers the runtime holds are the
    one kept in [_flushJob], if any, and [_flushJob] is undefined exactly
    when the queue is empty. So no record waits without a flush scheduled. *)
Theorem timer_pending_iff_records_queued
    (props : PropertyGetter) (evs : list Event) (w : World) :
  run getHash JSON_stringify (boot props) evs = Some w ->
  armed w = pending_timer (_flushJob (noter w))
  /\ (List.length (armed w) <= 1)%nat
  /\ (_flushJob (noter w) = None <-> _statsQueue (noter w) = [])
  /\ (_statsQueue (noter w) <> [] -> exists handle, armed w = [handle]).
Proof.
  intros Hrun.
  destruct (run_accounted evs _ _ _ _ (boot_accounted props) Hrun)
    as (batches & _ & _ & _ & Harmed & Hjob & _).
  rewrite Harmed. split; [reflexivity|]. split; [|split; [exact Hjob|]].
  - destruct (_flushJob (noter w)); cbn; lia.
  - intros Hq. destruct (_flushJob (noter w)) as [handle|]; [now exists handle|].
    exfalso. apply Hq. now apply Hjob.
Qed.

(** X5. One timer per batch: in any run, the number of timers scheduled is
    the number of writes issued plus the timers still pending (at most
    one); so each write is the work of its own timer, and noting
    compilations while a timer is pending schedules nothing. *)
Theorem one_timer_per_write
    (props : PropertyGetter) (evs : list Event) (w : World) :
  run getHash JSON_stringify (boot props) evs = Some w ->
  timers_set (history w)
  = (List.length (put_values (history w)) + List.length (armed w))%nat
  /\ (List.length (put_values (history w)) <= timers_set (history w)
      <= S (List.length (put_values (history w))))%nat.
Proof.
  intros Hrun.
  destruct (run_accounted evs _ _ _ _ (boot_accounted props) Hrun)
    as (batches & Hputs & _ & _ & Harmed & _ & Htimers).
  rewrite Hputs, List.length_map, Htimers, Harmed.
  destruct (_flushJob (noter w)); cbn [pending_timer List.length]; lia.
Qed.

Lemma boot_targets (props : PropertyGetter) :
  targets (configured_target props) (boot props).
Proof.
  unfold targets, boot, StatsNoter_constructor, configured_target.
  rewrite commit_noter, commit_history. cbn [fst snd _s3 _path history app].
  split; [reflexivity|]. intros e [<-|[]]. now left.
Qed.

Lemma step_targets (target : S3Bucket * PropValue * StorageClass)
    (w w' : World) (ev : Event) :
  targets target w -> step getHash JSON_stringify w ev = Some w' -> targets target w'.
Proof.
  intros [Hn Hh] Hstep. apply step_inv in Hstep. unfold targets.
  destruct ev as [now request|now handle|now outcome].
  - destruct Hstep as [-> ->].
    destruct (noteCompilation_keeps getHash now (next_handle w) request (noter w))
      as (_ & -> & -> & _).
    split; [exact Hn|]. intros e He. apply in_app_or in He as [He|He]; [now apply Hh|].
    rewrite noteCompilation_effects in He.
    destruct (_flushJob (noter w)); [destruct He|]. destruct He as [<-|[]]. now left.
  - destruct Hstep as (_ & -> & ->).
    destruct (flush_frame JSON_stringify now (noter w)) as (_ & _ & -> & ->).
    split; [exact Hn|]. intros e He. apply in_app_or in He as [He|He]; [now apply Hh|].
    rewrite flush_effects in He. destruct He as [<-|He].
    + right. cbn [write_target redundancy]. now rewrite Hn.
    + destruct (_flushJob (noter w)); [|destruct He]. destruct He as [<-|[]]. now left.
  - destruct Hstep as (_ & -> & ->). split; [exact Hn|].
    intros e He. apply in_app_or in He as [He|He]; [now apply Hh|].
    destruct outcome; [destruct He|]. destruct He as [<-|[]]. now left.
Qed.

Lemma run_targets (target : S3Bucket * PropValue * StorageClass) (evs : list Event) :
  forall w w' : World,
    targets target w -> run getHash JSON_stringify w evs = Some w' -> targets target w'.
Proof.
  induction evs as [|ev evs IH]; intros w w' Hw; cbn [run].
  - now intros [= <-].
  - destruct (step getHash JSON_stringify w ev) as [w1|] eqn:E; [|discriminate].
    apply IH. now apply (step_targets target w w1 ev).
Qed.

(** X6. Every write of a noter goes where the settings read at its
    construction say: to the bucket and region of
    [compilationStatsNotifierS3Bucket] and [compilationStatsNotifierS3Region]
    (default [us-east-1]), under the path [compilationStatsNotifierS3Path]
    (default [compile-stats]), with the reduced-redundancy storage class. The
    bucket has no default and is not checked: when the setting is missing the
    noter is built all the same and every write names an undefined bucket. *)
Theorem writes_go_where_configured
    (props : PropertyGetter) (evs : list Event) (w : World)
    (s3 : S3Bucket) (key value : string) (path : PropValue) (options : PutOptions) :
  run getHash JSON_stringify (boot props) evs = Some w ->
  In (S3_put s3 key value path options) (history w) ->
  s3_bucket s3 = props !! "compilationStatsNotifierS3Bucket"
  /\ s3_region s3 = props_get props "compilationStatsNotifierS3Region" (PStr "us-east-1")
  /\ path = props_get props "compilationStatsNotifierS3Path" (PStr "compile-stats")
  /\ redundancy options = REDUCED_REDUNDANCY
  /\ (props !! "compilationStatsNotifierS3Bucket" = None -> s3_bucket s3 = None).
Proof.
  intros Hrun Hin.
  destruct (run_targets _ evs _ _ (boot_targets props) Hrun) as [_ Hh].
  destruct (Hh _ Hin) as [H|H]; [discriminate|].
  unfold configured_target in H. cbn [write_target] in H. injection H as -> -> ->.
  cbn [s3_bucket s3_region]. repeat split. now intros ->.
Qed.

End Runs.

Lemma records_written_or_queued_witness :
  exists (w : World) (batches : list (list CompilationRecord.t)),
    run toy_hash toy_stringify (boot ∅) sample_events = Some w
    /\ put_values (history w) = List.map (batch_body toy_stringify) batches
    /\ (List.concat batches ++ _statsQueue (noter w))%list
       = [makeSafe toy_hash mid_january request_a;
          makeSafe toy_hash mid_january request_b;
          makeSafe toy_hash five_minutes_later request_c].
Proof.
  destruct (run toy_hash toy_stringify (boot ∅) sample_events) as [w|] eqn:E;
    [|vm_compute in E; discriminate].
  destruct (records_written_or_queued toy_hash toy_stringify ∅ sample_events w E)
    as (batches & Hputs & Hall).
  exists w, batches. split; [reflexivity|]. split; [exact Hputs | exact Hall].
Defined.

Lemma no_empty_batch_written_witness :
  exists (first : CompilationRecord.t) (others : list CompilationRecord.t),
    ("{2023-01-15T00:00:00.000Z,s24}" ++ newline ++ "{2023-01-15T00:00:00.000Z,s24}")
    = batch_body toy_stringify (first :: others).
Proof.
  destruct (run toy_hash toy_stringify (boot ∅) sample_events) as [w|] eqn:E;
    [|vm_compute in E; discriminate].
  apply (no_empty_batch_written toy_hash toy_stringify ∅ sample_events w _ E).
  vm_compute in E. injection E as <-. left. reflexivity.
Defined.

Lemma timer_pending_witness :
  exists w : World,
    run toy_hash toy_stringify (boot ∅) sample_events = Some w
    /\ armed w = [1%nat].
Proof.
  destruct (run toy_hash toy_stringify (boot ∅) sample_events) as [w|] eqn:E;
    [|vm_compute in E; discriminate].
  exists w. split; [reflexivity|].
  destruct (timer_pending_iff_records_queued toy_hash toy_stringify ∅ sample_events w E)
    as (-> & _).
  vm_compute in E. injection E as <-. reflexivity.
Defined.

Lemma one_timer_per_write_witness :
  exists w : World,
    run toy_hash toy_stringify (boot ∅) sample_events = Some w
    /\ timers_set (history w) = 2%nat.
Proof.
  destruct (run toy_hash toy_stringify (boot ∅) sample_events) as [w|] eqn:E;
    [|vm_compute in E; discriminate].
  exists w. split; [reflexivity|].
  destruct (one_timer_per_write toy_hash toy_stringify ∅ sample_events w E) as (-> & _).
  vm_compute in E. injection E as <-. reflexivity.
Defined.

Lemma writes_go_where_configured_witness :
  exists (w : World) (s3 : S3Bucket) (key value : string) (path : PropValue)
         (options : PutOptions),
    run toy_hash toy_stringify (boot ∅) sample_events = Some w
    /\ In (S3_put s3 key value path options) (history w)
    /\ s3_bucket s3 = None
    /\ s3_region s3 = PStr "us-east-1"
    /\ path = PStr "compile-stats".
Proof.
  destruct (run toy_hash toy_stringify (boot ∅) sample_events) as [w|] eqn:E;
    [|vm_compute in E; discriminate].
  assert (Hin : In (S3_put {| s3_bucket := None; s3_region := PStr "us-east-1" |}
                      "year=2023/month=0/date=15/2023-01-15T00:05:00.000Z.json"
                      ("{2023-01-15T00:00:00.000Z,s24}" ++ newline
                       ++ "{2023-01-15T00:00:00.000Z,s24}")
                      (PStr "compile-stats") {| redundancy := REDUCED_REDUNDANCY |})
                   (history w)).
  { vm_compute in E. injection E as <-. right. right. left. reflexivity. }
  destruct (writes_go_where_configured toy_hash toy_stringify ∅ sample_events w _ _ _ _ _
              E Hin) as (Hb & Hr & Hp & _ & _).
  eexists w, _, _, _, _, _. split; [reflexivity|]. split; [exact Hin|].
  split; [exact Hb|]. split; [exact Hr | reflexivity].
Defined.

(** ** Splitting a batch back into its records *)

Lemma split_on_no_sep (sep : ascii) (x : string) :
  includes_char sep x = false -> split_on sep x = [x].
Proof.
  induction x as [|c x IH]; cbn [includes_char split_on]; [reflexivity|].
  intros H. apply orb_false_iff in H as [Hc Hx]. now rewrite Hc, IH.
Qed.

Lemma split_on_app_sep (sep : ascii) (x rest : string) :
  includes_char sep x = false ->
  split_on sep (x ++ String sep rest) = x :: split_on sep rest.
Proof.
  induction x as [|c x IH]; cbn [includes_char].
  - intros _. change (EmptyString ++ String sep rest) with (String sep rest).
    cbn [split_on]. now rewrite Ascii.eqb_refl.
  - intros H. apply orb_false_iff in H as [Hc Hx].
    change (String c x ++ String sep rest) with (String c (x ++ String sep rest)).
    cbn [split_on]. now rewrite Hc, IH.
Qed.

Lemma split_on_concat (sep : ascii) (l : list string) :
  l <> [] ->
  Forall (fun x => includes_char sep x = false) l ->
  split_on sep (String.concat (String sep EmptyString) l) = l.
Proof.
  induction l as [|x l IH]; [congruence|]. intros _ Hall.
  apply List.Forall_cons_iff in Hall as [Hx Hl].
  destruct l as [|y l].
  - now apply split_on_no_sep.
  - change (String.concat (String sep EmptyString) (x :: y :: l))
      with (x ++ String sep (String.concat (String sep EmptyString) (y :: l))).
    rewrite split_on_app_sep by exact Hx. f_equal. now apply IH.
Qed.

(** X7. A batch reads back line by line: when no serialised record holds a
    newline (the serialiser escapes them), splitting the body of a non-empty
    batch at the newlines gives the serialised records again, one per line
    and in order. *)
Theorem batch_body_lines (JSON_stringify : CompilationRecord.t -> string)
    (batch : list CompilationRecord.t) :
  batch <> [] ->
  Forall (fun r => includes_char (ascii_of_nat 10) (JSON_stringify r) = false) batch ->
  split_on (ascii_of_nat 10) (batch_body JSON_stringify batch)
  = List.map JSON_stringify batch
  /\ List.length (split_on (ascii_of_nat 10) (batch_body JSON_stringify batch))
     = List.length batch.
Proof.
  intros Hne Hall.
  assert (E : split_on (ascii_of_nat 10) (batch_body JSON_stringify batch)
              = List.map JSON_stringify batch).
  { unfold batch_body, Buffer_from, newline. apply split_on_concat.
    - destruct batch; [congruence | discriminate].
    - apply List.Forall_map. exact Hall. }
  split; [exact E|]. now rewrite E, List.length_map.
Qed.

Lemma batch_body_lines_witness :
  split_on (ascii_of_nat 10)
    (batch_body toy_stringify
       [makeSafe toy_hash mid_january request_a;
        makeSafe toy_hash five_minutes_later request_c])
  = ["{2023-01-15T00:00:00.000Z,s24}"; "{2023-01-15T00:05:00.000Z,s24}"].
Proof.
  apply (batch_body_lines toy_stringify
           [makeSafe toy_hash mid_january request_a;
            makeSafe toy_hash five_minutes_later request_c]).
  - discriminate.
  - repeat constructor.
Defined.

(** ** The filters kept in a record *)

Lemma in_set_property (k : string) (v : JsValue) (o : JsObject) (e : string * JsValue) :
  In e (set_property k v o) -> e = (k, v) \/ In e o.
Proof.
  induction o as [|[k' v'] o IH]; cbn [set_property In].
  - intros [<-|[]]. now left.
  - destruct (String.eqb k k'); cbn [In].
    + intros [<-|H]; auto.
    + intros [<-|H]; auto. destruct (IH H); auto.
Qed.

Lemma in_fromEntries (es : list (string * JsValue)) (e : string * JsValue) :
  forall o : JsObject,
    In e (fold_left (fun o e => set_property (fst e) (snd e) o) es o) ->
    In e o \/ In e es.
Proof.
  induction es as [|[k v] es IH]; intros o; cbn [fold_left fst snd In]; [auto|].
  intros H. destruct (IH _ H) as [H'|H']; [|auto].
  destruct (in_set_property k v o e H'); auto.
Qed.

(** X8. The filters of a record are booleans taken from the request: every
    entry kept has a boolean value and is an entry of the request's filters,
    so no other value of the request (a string, a number, a nested object)
    reaches the record through its filters; and for a request whose filter
    names are distinct, the entries kept are exactly its boolean entries, in
    their order. *)
Theorem makeSafe_filters_are_request_booleans (getHash : JsValue -> string)
    (t : JsDate.Date) (r : ParsedRequest.t) :
  (forall e, In e (CompilationRecord.filters (makeSafe getHash t r)) ->
     In e (ParsedRequest.filters r) /\ exists b, snd e = JBool b)
  /\ (List.NoDup (List.map fst (ParsedRequest.filters r)) ->
      CompilationRecord.filters (makeSafe getHash t r)
      = List.filter is_boolean_entry (ParsedRequest.filters r)).
Proof.
  split.
  - intros e He. cbn [makeSafe CompilationRecord.filters] in He.
    unfold Object_fromEntries, Object_entries in He.
    apply in_fromEntries in He as [[]|He].
    apply List.filter_In in He as [Hin Hb]. split; [exact Hin|].
    now apply is_boolean_entry_inv.
  - intros Hnd. now apply makeSafe_filters_boolean.
Qed.

Lemma makeSafe_filters_witness :
  CompilationRecord.filters (makeSafe toy_hash mid_january request_a)
  = [("binary", JBool false); ("labels", JBool true)].
Proof.
  destruct (makeSafe_filters_are_request_booleans toy_hash mid_january request_a)
    as [_ H].
  rewrite H; [reflexivity|]. repeat constructor; cbn; intuition discriminate.
Defined.

(** ** Keys and instants *)

Lemma digits_value_acc (d : Decimal.uint) :
  forall acc : positive,
    digits_value (Z.pos acc) (NilEmpty.string_of_uint d) = Z.pos (Pos.of_uint_acc d acc).
Proof.
  induction d; intros acc; cbn [NilEmpty.string_of_uint digits_value Pos.of_uint_acc];
    try reflexivity;
    match goal with
    | |- digits_value ?z _ = _ =>
        match goal with
        | |- _ = Z.pos (Pos.of_uint_acc _ ?p) =>
            replace z with (Z.pos p)
              by (match goal with
                  | |- context [Z.of_nat (nat_of_ascii ?c)] =>
                      let v := eval vm_compute in (Z.of_nat (nat_of_ascii c)) in
                      change (Z.of_nat (nat_of_ascii c)) with v
                  end; lia)
        end
    end; apply IHd.
Qed.

Lemma digits_value_uint (d : Decimal.uint) :
  digits_value 0 (NilEmpty.string_of_uint d) = Z.of_N (Pos.of_uint d).
Proof.
  induction d; cbn [NilEmpty.string_of_uint digits_value Pos.of_uint]; try reflexivity;
    try exact IHd;
    match goal with
    | |- digits_value ?z _ = Z.of_N (N.pos (Pos.of_uint_acc _ ?p)) =>
        change z with (Z.pos p); apply digits_value_acc
    end.
Qed.

Lemma digits_value_Z_to_string (n : Z) : 0 <= n -> digits_value 0 (Z_to_string n) = n.
Proof.
  intros Hn. unfold Z_to_string. destruct n as [|p|p]; [reflexivity| |lia].
  cbn [Z.to_int NilZero.string_of_int]. unfold NilZero.string_of_uint.
  destruct (Pos.to_uint p) eqn:E.
  - exfalso. pose proof (DecimalPos.Unsigned.of_to p) as H. rewrite E in H. discriminate.
  - rewrite <- E, digits_value_uint, DecimalPos.Unsigned.of_to. reflexivity.
  - rewrite <- E, digits_value_uint, DecimalPos.Unsigned.of_to. reflexivity.
  - rewrite <- E, digits_value_uint, DecimalPos.Unsigned.of_to. reflexivity.
  - rewrite <- E, digits_value_uint, DecimalPos.Unsigned.of_to. reflexivity.
  - rewrite <- E, digits_value_uint, DecimalPos.Unsigned.of_to. reflexivity.
  - rewrite <- E, digits_value_uint, DecimalPos.Unsigned.of_to. reflexivity.
  - rewrite <- E, digits_value_uint, DecimalPos.Unsigned.of_to. reflexivity.
  - rewrite <- E, digits_value_uint, DecimalPos.Unsigned.of_to. reflexivity.
  - rewrite <- E, digits_value_uint, DecimalPos.Unsigned.of_to. reflexivity.
  - rewrite <- E, digits_value_uint, DecimalPos.Unsigned.of_to. reflexivity.
Qed.

Lemma digits_value_zeros (k : nat) (s : string) :
  digits_value 0 (zeros k ++ s) = digits_value 0 s.
Proof. induction k as [|k IH]; [reflexivity|]. cbn. exact IH. Qed.

Lemma digits_value_padStart0 (w : nat) (n : Z) :
  0 <= n -> digits_value 0 (padStart0 w (Z_to_string n)) = n.
Proof.
  intros Hn. unfold padStart0. now rewrite digits_value_zeros, digits_value_Z_to_string.
Qed.

Lemma to_int_proper (z : Z) :
  Z.to_int z <> Decimal.Pos Decimal.Nil /\ Z.to_int z <> Decimal.Neg Decimal.Nil.
Proof.
  destruct z as [|p|p]; cbn [Z.to_int]; split; try discriminate;
    intros [= E]; now apply (DecimalPos.Unsigned.to_uint_nonnil p).
Qed.

Lemma Z_to_string_inj (a b : Z) : Z_to_string a = Z_to_string b -> a = b.
Proof.
  unfold Z_to_string. intros H. apply DecimalZ.to_int_inj.
  assert (E : NilZero.int_of_string (NilZero.string_of_int (Z.to_int a))
              = NilZero.int_of_string (NilZero.string_of_int (Z.to_int b))) by now rewrite H.
  destruct (to_int_proper a), (to_int_proper b).
  rewrite !NilZero.isi in E by assumption. now injection E.
Qed.

(** A decimal numeral holds digits only (and a sign). *)
Lemma uint_no_char (c : ascii) (d : Decimal.uint) :
  (nat_of_ascii c < 48 \/ 57 < nat_of_ascii c)%nat ->
  includes_char c (NilEmpty.string_of_uint d) = false.
Proof.
  intros Hc. induction d; cbn [NilEmpty.string_of_uint includes_char]; [reflexivity|..];
    rewrite IHd, orb_false_r; apply Ascii.eqb_neq; intros <-; vm_compute in Hc; lia.
Qed.

Lemma Z_to_string_no_slash (z : Z) : includes_char "/" (Z_to_string z) = false.
Proof.
  assert (U : forall d, includes_char "/" (NilZero.string_of_uint d) = false).
  { intros d. unfold NilZero.string_of_uint. destruct d; try reflexivity;
      apply uint_no_char; vm_compute; lia. }
  unfold Z_to_string. destruct (Z.to_int z); cbn [NilZero.string_of_int includes_char].
  - apply U.
  - rewrite U. reflexivity.
Qed.

Lemma first_sep_inj (c : ascii) (x y r r' : string) :
  includes_char c x = false -> includes_char c y = false ->
  x ++ String c r = y ++ String c r' -> x = y /\ r = r'.
Proof.
  revert y. induction x as [|a x IH]; intros [|b y]; cbn [includes_char]; intros Hx Hy.
  - intros [= ->]. auto.
  - intros [= <- _]. rewrite Ascii.eqb_refl in Hy. discriminate.
  - intros [= -> _]. rewrite Ascii.eqb_refl in Hx. discriminate.
  - intros [= -> E]. apply orb_false_iff in Hx as [_ Hx]. apply orb_false_iff in Hy as [_ Hy].
    destruct (IH y Hx Hy E) as [-> ->]. auto.
Qed.

Lemma append_inj_length (a b x y : string) :
  String.length a = String.length b -> a ++ x = b ++ y -> a = b /\ x = y.
Proof.
  revert b. induction a as [|c a IH]; intros [|d b]; cbn [String.length]; try discriminate.
  - auto.
  - intros [= Hl] [= -> E]. destruct (IH b Hl E) as [-> ->]. auto.
Qed.

Lemma string_length_app (a b : string) :
  String.length (a ++ b) = (String.length a + String.length b)%nat.
Proof.
  induction a as [|c a IH]; [reflexivity|].
  change (String c a ++ b) with (String c (a ++ b)). cbn [String.length].
  now rewrite IH.
Qed.

Lemma zeros_length (k : nat) : String.length (zeros k) = k.
Proof. induction k as [|k IH]; [reflexivity|]. cbn [zeros String.length]. now rewrite IH. Qed.

Lemma padStart0_length_ge (w : nat) (s : string) : (w <= String.length (padStart0 w s))%nat.
Proof. unfold padStart0. rewrite string_length_app, zeros_length. lia. Qed.

Lemma padStart0_length_small (w : nat) (s : string) :
  (String.length s <= w)%nat -> String.length (padStart0 w s) = w.
Proof. intros H. unfold padStart0. rewrite string_length_app, zeros_length. lia. Qed.

(** A test that holds on every number below a bound, checked by running it. *)
Lemma below_checked (bound : Z) (P : Z -> bool) :
  forallb (fun k => P (Z.of_nat k)) (seq 0 (Z.to_nat bound)) = true ->
  forall n, 0 <= n < bound -> P n = true.
Proof.
  intros H n Hn. rewrite List.forallb_forall in H.
  rewrite <- (Z2Nat.id n) by lia. apply H. apply List.in_seq. lia.
Qed.

Lemma two_length (n : Z) : 0 <= n <= 99 -> String.length (JsDate.two n) = 2%nat.
Proof.
  intros Hn. apply Nat.eqb_eq.
  apply (below_checked 100 (fun k => Nat.eqb (String.length (JsDate.two k)) 2));
    [vm_compute; reflexivity | lia].
Qed.

Lemma three_length (n : Z) : 0 <= n <= 999 -> String.length (JsDate.three n) = 3%nat.
Proof.
  intros Hn. apply Nat.eqb_eq.
  apply (below_checked 1000 (fun k => Nat.eqb (String.length (JsDate.three k)) 3));
    [vm_compute; reflexivity | lia].
Qed.

Lemma four_length (n : Z) :
  0 <= n <= 9999 -> String.length (padStart0 4 (Z_to_string n)) = 4%nat.
Proof.
  intros Hn. apply Nat.eqb_eq.
  apply (below_checked 10000
           (fun k => Nat.eqb (String.length (padStart0 4 (Z_to_string k))) 4));
    [vm_compute; reflexivity | lia].
Qed.

Lemma padStart0_inj (w : nat) (a b : Z) :
  0 <= a -> 0 <= b -> padStart0 w (Z_to_string a) = padStart0 w (Z_to_string b) -> a = b.
Proof.
  intros Ha Hb E.
  rewrite <- (digits_value_padStart0 w a Ha), <- (digits_value_padStart0 w b Hb).
  now rewrite E.
Qed.

Lemma isoYear_inj (a b : Z) : JsDate.isoYear a = JsDate.isoYear b -> a = b.
Proof.
  assert (Long : forall y : Z, (7 <= String.length
                              ((if (y <? 0)%Z then "-" else "+")
                               ++ padStart0 6 (Z_to_string (Z.abs y))))%nat).
  { intros y. rewrite string_length_app.
    pose proof (padStart0_length_ge 6 (Z_to_string (Z.abs y))).
    destruct (y <? 0); cbn [String.length]; lia. }
  unfold JsDate.isoYear.
  destruct (Z.leb_spec 0 a), (Z.leb_spec a 9999), (Z.leb_spec 0 b), (Z.leb_spec b 9999);
    cbn [andb]; intros E;
    try (apply padStart0_inj in E; lia);
    try (exfalso;
         match type of E with
         | padStart0 4 (Z_to_string ?x) = _ =>
             pose proof (four_length x ltac:(lia)) as L; pose proof (Long b) as L';
             rewrite E in L; lia
         | _ = padStart0 4 (Z_to_string ?x) =>
             pose proof (four_length x ltac:(lia)) as L; pose proof (Long a) as L';
             rewrite <- E in L; lia
         end);
    apply append_inj_length in E;
    try (destruct (a <? 0), (b <? 0); reflexivity);
    destruct E as [Es E]; apply padStart0_inj in E; try lia;
    destruct (Z.ltb_spec a 0), (Z.ltb_spec b 0); try discriminate; lia.
Qed.

Lemma append_inj_tail_length (a b x y : string) :
  String.length x = String.length y -> a ++ x = b ++ y -> a = b /\ x = y.
Proof.
  intros Hl E. apply append_inj_length; [|exact E].
  assert (L : String.length (a ++ x) = String.length (b ++ y)) by now rewrite E.
  rewrite !string_length_app in L. lia.
Qed.

Lemma two_inj (a b : Z) : 0 <= a -> 0 <= b -> JsDate.two a = JsDate.two b -> a = b.
Proof. apply padStart0_inj. Qed.

Lemma three_inj (a b : Z) : 0 <= a -> 0 <= b -> JsDate.three a = JsDate.three b -> a = b.
Proof. apply padStart0_inj. Qed.

Lemma time_of_day_ranges (t : Z) :
  0 <= JsDate.HourFromTime t <= 23 /\ 0 <= JsDate.MinFromTime t <= 59
  /\ 0 <= JsDate.SecFromTime t <= 59 /\ 0 <= JsDate.msFromTime t <= 999.
Proof.
  unfold JsDate.HourFromTime, JsDate.MinFromTime, JsDate.SecFromTime, JsDate.msFromTime,
    JsDate.msPerHour, JsDate.msPerMinute, JsDate.msPerSecond.
  repeat split; Z.to_euclidean_division_equations; lia.
Qed.

Lemma time_from_fields (t1 t2 : Z) :
  JsDate.Day t1 = JsDate.Day t2 ->
  JsDate.HourFromTime t1 = JsDate.HourFromTime t2 ->
  JsDate.MinFromTime t1 = JsDate.MinFromTime t2 ->
  JsDate.SecFromTime t1 = JsDate.SecFromTime t2 ->
  JsDate.msFromTime t1 = JsDate.msFromTime t2 ->
  t1 = t2.
Proof.
  unfold JsDate.Day, JsDate.HourFromTime, JsDate.MinFromTime, JsDate.SecFromTime,
    JsDate.msFromTime, JsDate.msPerDay, JsDate.msPerHour, JsDate.msPerMinute,
    JsDate.msPerSecond.
  intros. Z.to_euclidean_division_equations. lia.
Qed.

Lemma day_from_fields (t1 t2 : Z) :
  JsDate.YearFromTime t1 = JsDate.YearFromTime t2 ->
  JsDate.MonthFromTime t1 = JsDate.MonthFromTime t2 ->
  JsDate.DateFromTime t1 = JsDate.DateFromTime t2 ->
  JsDate.Day t1 = JsDate.Day t2.
Proof.
  intros Hy Hm Hd.
  assert (Hl : JsDate.InLeapYear t1 = JsDate.InLeapYear t2)
    by (unfold JsDate.InLeapYear; now rewrite Hy).
  assert (Hw : JsDate.DayWithinYear t1 = JsDate.DayWithinYear t2).
  { unfold JsDate.DateFromTime in Hd. rewrite <- Hm in Hd. rewrite <- Hl in Hd.
    cbv zeta in Hd.
    repeat match type of Hd with
           | context [match ?x with _ => _ end] => destruct x
           end; lia. }
  unfold JsDate.DayWithinYear in Hw. rewrite Hy in Hw. lia.
Qed.

Ltac peel_field H :=
  apply append_inj_length in H;
  [ let E := fresh "E" in
    let R := fresh "R" in
    destruct H as [E R]; rename R into H
  | rewrite ?two_length, ?three_length by lia; reflexivity ].

(** Two instants that print alike are the same instant. *)
Lemma toISOString_inj (d1 d2 : JsDate.Date) :
  JsDate.toISOString d1 = JsDate.toISOString d2 -> d1 = d2.
Proof.
  destruct d1 as [t1], d2 as [t2]. unfold JsDate.toISOString. cbn [JsDate.timeValue].
  intros K.
  pose proof (MonthFromTime_range t1). pose proof (MonthFromTime_range t2).
  pose proof (DateFromTime_range t1). pose proof (DateFromTime_range t2).
  pose proof (time_of_day_ranges t1) as (? & ? & ? & ?).
  pose proof (time_of_day_ranges t2) as (? & ? & ? & ?).
  apply append_inj_tail_length in K.
  2:{ rewrite !string_length_app, !two_length, !three_length by lia. reflexivity. }
  destruct K as [Hy K]. apply isoYear_inj in Hy.
  peel_field K. peel_field K. peel_field K. peel_field K. peel_field K. peel_field K.
  peel_field K. peel_field K. peel_field K. peel_field K. peel_field K. peel_field K.
  apply two_inj in E0, E2, E4, E6, E8; try lia. apply three_inj in E10; try lia.
  f_equal. apply time_from_fields; try assumption.
  apply day_from_fields; [exact Hy | lia | exact E2].
Qed.

(** X9. Keys do not collide: two flushes get the same key only when they
    happen at the same millisecond, so a batch is never written over by a
    batch flushed at another time. *)
Theorem makeKey_injective (d1 d2 : JsDate.Date) : makeKey d1 = makeKey d2 -> d1 = d2.
Proof.
  unfold makeKey. intros H.
  apply append_inj_length in H; [|reflexivity]. destruct H as [_ R]; rename R into H.
  change ("/month=" ++ ?r) with (String "/" ("month=" ++ r)) in H.
  apply first_sep_inj in H; try apply Z_to_string_no_slash. destruct H as [_ R]; rename R into H.
  apply append_inj_length in H; [|reflexivity]. destruct H as [_ R]; rename R into H.
  change ("/date=" ++ ?r) with (String "/" ("date=" ++ r)) in H.
  apply first_sep_inj in H; try apply Z_to_string_no_slash. destruct H as [_ R]; rename R into H.
  apply append_inj_length in H; [|reflexivity]. destruct H as [_ R]; rename R into H.
  change ("/" ++ ?r) with (String "/" r) in H.
  apply first_sep_inj in H; try apply Z_to_string_no_slash. destruct H as [_ R]; rename R into H.
  apply append_inj_tail_length in H; [|reflexivity]. destruct H as [R _].
  now apply toISOString_inj.
Qed.

Lemma makeKey_injective_witness :
  JsDate.mkDate (1673740800000 + 0) = mid_january.
Proof. apply makeKey_injective. reflexivity. Defined.

(** ** Masking temporary directories *)

Example maskRootdir_posix :
  maskRootdir "linux" "/tmp" "/tmp/compiler-explorer-compiler2024-x.Y_z/example.cpp"
  = Some "example.cpp".
Proof. reflexivity. Qed.

Example maskRootdir_posix_inside :
  maskRootdir "linux" "/tmp" "-I/tmp/compiler-explorer-compilerAbC/include"
  = Some "-I/app/include".
Proof. reflexivity. Qed.

Example maskRootdir_win32 :
  maskRootdir "win32" "C:\Temp"
    "C:/Users/some.one/AppData/Local/Temp/compiler-explorer-compiler1234/out/a.s"
  = Some "out/a.s".
Proof. reflexivity. Qed.

Example fixRootDir_jail :
  fixRootDirIfNeeded "/tmp" "/tmp/compiler-explorer-compilerAbC" "nsjail" = Some "/app"
  /\ fixRootDirIfNeeded "/tmp" "/tmp/compiler-explorer-compilerAbC/" "nsjail" = Some "/app/"
  /\ fixRootDirIfNeeded "/tmp" "/tmp/compiler-explorer-compilerAbC/x" "nsjail"
     = Some "/app/x"
  /\ fixRootDirIfNeeded "/tmp" "/usr/include" "nsjail" = Some "/usr/include"
  /\ fixRootDirIfNeeded "/tmp" "/tmp/compiler-explorer-compilerAbC/x" "none"
     = Some "/tmp/compiler-explorer-compilerAbC/x".
Proof. repeat split. Qed.

Lemma append_nil_l (s : string) : EmptyString ++ s = s.
Proof. reflexivity. Qed.

Lemma append_cons (c : ascii) (a b : string) : String c a ++ b = String c (a ++ b).
Proof. reflexivity. Qed.

Lemma append_assoc (a b c : string) : (a ++ b) ++ c = a ++ (b ++ c).
Proof.
  induction a as [|x a IH]; [reflexivity|]. rewrite !append_cons. now rewrite IH.
Qed.

Lemma literal_k_app (literal s : string) (k : string -> option string) :
  Pattern.literal_k literal (literal ++ s) k = k s.
Proof.
  induction literal as [|c literal IH]; [reflexivity|].
  rewrite append_cons. cbn [Pattern.literal_k]. now rewrite Ascii.eqb_refl.
Qed.

Lemma many_k_run (class : ascii -> bool) (run : string) (c : ascii) (rest r : string)
    (k : string -> option string) :
  all_chars class run = true ->
  k (String c rest) = Some r ->
  class c = false ->
  Pattern.many_k class (run ++ String c rest) k = Some r.
Proof.
  intros Hrun Hk Hc. induction run as [|a run IH].
  - rewrite append_nil_l. cbn [Pattern.many_k]. now rewrite Hc.
  - cbn [all_chars] in Hrun. apply andb_true_iff in Hrun as [Ha Hrun].
    rewrite append_cons. cbn [Pattern.many_k]. now rewrite Ha, (IH Hrun).
Qed.

Lemma truthy_app_cons (a b : string) (c : ascii) : truthy_string (a ++ String c b) = true.
Proof. now destruct a. Qed.

Lemma tempdir_matches (tmp suffix rest : string) :
  all_chars tempdir_char suffix = true ->
  Pattern.match_at
    (Pattern.Then (Pattern.Chars tmp)
       (Pattern.Then (Pattern.Chars ("/" ++ temp_prefix))
          (Pattern.Then (Pattern.ManyOf tempdir_char) (Pattern.Chars "/"))))
    (tmp ++ ("/" ++ temp_prefix) ++ suffix ++ String "/" rest)
  = Some rest.
Proof.
  intros Hs. unfold Pattern.match_at. cbn [Pattern.match_k].
  rewrite literal_k_app, literal_k_app.
  apply many_k_run; [exact Hs | | reflexivity].
  change (String "/" rest) with ("/" ++ rest). apply literal_k_app.
Qed.

Lemma search_at_start (p : Pattern.pattern) (s rest : string) :
  Pattern.match_at p s = Some rest -> Pattern.search p s = Some (EmptyString, rest).
Proof. intros H. destruct s; cbn [Pattern.search]; now rewrite H. Qed.

(** X10. A path inside a compilation's temporary directory is shown relative
    to it: when the name of the system's temporary directory holds no
    pattern syntax and the platform is not win32, masking
    tmp/compiler-explorer-compiler<suffix>/<rest> gives <rest>, whatever
    <rest> is, for every suffix made of letters, digits, underscores, dashes
    and dots. *)
Theorem maskRootdir_strips_tempdir (platform tmp suffix rest : string) :
  String.eqb platform "win32" = false ->
  plain tmp = true ->
  all_chars tempdir_char suffix = true ->
  maskRootdir platform tmp (tmp ++ "/" ++ temp_prefix ++ suffix ++ "/" ++ rest) = Some rest.
Proof.
  intros Hp Ht Hs. unfold maskRootdir, getRegexForTempdir.
  change ("/" ++ temp_prefix ++ suffix ++ "/" ++ rest)
    with (String "/" (temp_prefix ++ suffix ++ "/" ++ rest)).
  rewrite truthy_app_cons, Hp, Ht.
  unfold Pattern.replace.
  change (String "/" (temp_prefix ++ suffix ++ "/" ++ rest))
    with (("/" ++ temp_prefix) ++ suffix ++ String "/" rest).
  rewrite (search_at_start _ _ rest) by now apply tempdir_matches.
  reflexivity.
Qed.

(** X11. On win32 the user's temporary directory is masked the same way:
    C:/Users/<user>/AppData/Local/Temp/compiler-explorer-compiler<suffix>/<rest>
    becomes <rest>, whatever the system's temporary directory is called. *)
Theorem maskRootdir_strips_win32_tempdir (tmp user suffix rest : string) :
  all_chars tempdir_char user = true ->
  all_chars tempdir_char suffix = true ->
  maskRootdir "win32" tmp
    ("C:/Users/" ++ user ++ "/AppData/Local/Temp/compiler-explorer-compiler"
     ++ suffix ++ "/" ++ rest)
  = Some rest.
Proof.
  intros Hu Hs. unfold maskRootdir. cbn [truthy_string String.eqb Ascii.eqb Bool.eqb].
  change (truthy_string _) with true. cbv iota.
  unfold Pattern.replace_at_start at 2.
  assert (M : Pattern.match_at win32_tempdir
                ("C:/Users/" ++ user ++ "/AppData/Local/Temp/compiler-explorer-compiler"
                 ++ suffix ++ "/" ++ rest) = Some rest).
  { unfold Pattern.match_at, win32_tempdir. cbn [Pattern.match_k].
    rewrite literal_k_app.
    change ("/AppData/Local/Temp/compiler-explorer-compiler" ++ suffix ++ "/" ++ rest)
      with (String "/" ("AppData/Local/Temp/compiler-explorer-compiler"
                        ++ suffix ++ "/" ++ rest)).
    apply many_k_run; [exact Hu | | reflexivity].
    change (String "/" ("AppData/Local/Temp/compiler-explorer-compiler"
                        ++ suffix ++ "/" ++ rest))
      with ("/AppData/Local/Temp/compiler-explorer-compiler" ++ suffix ++ String "/" rest).
    rewrite literal_k_app.
    apply many_k_run; [exact Hs | | reflexivity].
    change (String "/" rest) with ("/" ++ rest). apply literal_k_app. }
  rewrite M. reflexivity.
Qed.

Lemma append_nil_r (s : string) : s ++ EmptyString = s.
Proof. induction s as [|c s IH]; [reflexivity|]. rewrite append_cons. now rewrite IH. Qed.

Lemma search_slash_at_end (x : string) :
  Pattern.search (Pattern.Then (Pattern.Chars "/") Pattern.AtEnd) (x ++ "/")
  = Some (x, EmptyString).
Proof.
  induction x as [|c x IH]; [reflexivity|].
  rewrite append_cons. cbn [Pattern.search]. rewrite IH.
  replace (Pattern.match_at (Pattern.Then (Pattern.Chars "/") Pattern.AtEnd)
             (String c (x ++ "/"))) with (@None string); [reflexivity|].
  unfold Pattern.match_at. cbn [Pattern.match_k Pattern.literal_k].
  destruct (Ascii.eqb c "/"); [|reflexivity]. now destruct x.
Qed.

Lemma strip_trailing_slash (x : string) :
  Pattern.replace (Pattern.Then (Pattern.Chars "/") Pattern.AtEnd) EmptyString (x ++ "/") = x.
Proof.
  unfold Pattern.replace. rewrite search_slash_at_end.
  rewrite append_nil_l. apply append_nil_r.
Qed.

Lemma endsWith_app (a b : string) (c : ascii) :
  b <> EmptyString -> endsWith (a ++ b) c = endsWith b c.
Proof.
  intros Hb. induction a as [|x a IH]; [reflexivity|].
  rewrite append_cons. cbn [endsWith]. rewrite IH.
  destruct (a ++ b) eqn:E; [|reflexivity].
  destruct a, b; try discriminate; congruence.
Qed.

Lemma endsWith_class (class : ascii -> bool) (s : string) (c : ascii) :
  all_chars class s = true -> class c = false -> endsWith s c = false.
Proof.
  intros Hs Hc. induction s as [|a s IH]; [reflexivity|].
  cbn [all_chars] in Hs. apply andb_true_iff in Hs as [Ha Hs].
  cbn [endsWith]. destruct s as [|b s]; [|now apply IH].
  apply Ascii.eqb_neq. intros ->. congruence.
Qed.

(** X12. Under nsjail the temporary directory of a compilation is renamed
    /app: the directory itself, given without a final slash, becomes /app,
    and a path below it becomes /app/<rest>, with or without a final slash
    just as it came. *)
Theorem fixRootDirIfNeeded_maps_jail_to_app (tmp suffix : string) :
  plain tmp = true ->
  all_chars tempdir_char suffix = true ->
  fixRootDirIfNeeded tmp (tmp ++ "/" ++ temp_prefix ++ suffix) "nsjail" = Some "/app"
  /\ forall rest : string,
       fixRootDirIfNeeded tmp (tmp ++ "/" ++ temp_prefix ++ suffix ++ "/" ++ rest) "nsjail"
       = Some ("/app/" ++ rest).
Proof.
  intros Ht Hs.
  assert (R : forall rest,
            Pattern.replace
              (Pattern.Then (Pattern.Chars tmp)
                 (Pattern.Then (Pattern.Chars ("/" ++ temp_prefix))
                    (Pattern.Then (Pattern.ManyOf tempdir_char) (Pattern.Chars "/"))))
              "/app/" (tmp ++ "/" ++ temp_prefix ++ suffix ++ "/" ++ rest)
            = "/app/" ++ rest).
  { intros rest. unfold Pattern.replace.
    change ("/" ++ temp_prefix ++ suffix ++ "/" ++ rest)
      with (("/" ++ temp_prefix) ++ suffix ++ String "/" rest).
    rewrite (search_at_start _ _ rest) by now apply tempdir_matches.
    reflexivity. }
  split.
  - unfold fixRootDirIfNeeded, getRegexForTempdir.
    change ("/" ++ temp_prefix ++ suffix) with (String "/" (temp_prefix ++ suffix)).
    rewrite truthy_app_cons, Ht. cbn [andb String.eqb Ascii.eqb Bool.eqb]. cbv zeta.
    assert (E : endsWith (tmp ++ String "/" (temp_prefix ++ suffix)) "/" = false).
    { rewrite endsWith_app by discriminate.
      destruct suffix as [|a suffix]; [reflexivity|].
      change (String "/" (temp_prefix ++ String a suffix))
        with (("/" ++ temp_prefix) ++ String a suffix).
      rewrite endsWith_app by discriminate.
      now apply (endsWith_class tempdir_char). }
    rewrite E.
    replace ((tmp ++ String "/" (temp_prefix ++ suffix)) ++ "/")
      with (tmp ++ "/" ++ temp_prefix ++ suffix ++ "/" ++ EmptyString).
    + rewrite R. reflexivity.
    + rewrite append_assoc. now f_equal.
  - intros rest. unfold fixRootDirIfNeeded, getRegexForTempdir.
    change ("/" ++ temp_prefix ++ suffix ++ "/" ++ rest)
      with (String "/" (temp_prefix ++ suffix ++ "/" ++ rest)).
    rewrite truthy_app_cons, Ht. cbn [andb String.eqb Ascii.eqb Bool.eqb]. cbv zeta.
    change (String "/" (temp_prefix ++ suffix ++ "/" ++ rest))
      with ("/" ++ temp_prefix ++ suffix ++ "/" ++ rest).
    destruct (endsWith (tmp ++ "/" ++ temp_prefix ++ suffix ++ "/" ++ rest) "/").
    + now rewrite R.
    + replace ((tmp ++ "/" ++ temp_prefix ++ suffix ++ "/" ++ rest) ++ "/")
        with (tmp ++ "/" ++ temp_prefix ++ suffix ++ "/" ++ (rest ++ "/")).
      * rewrite R.
        replace ("/app/" ++ rest ++ "/") with (("/app/" ++ rest) ++ "/")
          by apply append_assoc.
        now rewrite strip_trailing_slash.
      * rewrite !append_assoc. now f_equal.
Qed.

Lemma literal_k_inv (literal s r : string) (k : string -> option string) :
  Pattern.literal_k literal s k = Some r ->
  exists s', s = literal ++ s' /\ k s' = Some r.
Proof.
  revert s. induction literal as [|c literal IH]; intros s; cbn [Pattern.literal_k].
  - intros H. now exists s.
  - destruct s as [|c' s]; [discriminate|].
    destruct (Ascii.eqb_spec c' c) as [->|_]; [|discriminate].
    intros H. destruct (IH s H) as (s' & -> & Hk). now exists s'.
Qed.

Lemma literal_k_no_prefix (literal s : string) (k : string -> option string) :
  String.prefix literal s = false -> Pattern.literal_k literal s k = None.
Proof.
  revert s. induction literal as [|c literal IH]; intros s.
  - now rewrite prefix_nil_l.
  - destruct s as [|c' s]; [reflexivity|].
    rewrite prefix_cons. cbn [Pattern.literal_k]. rewrite (Ascii.eqb_sym c' c).
    destruct (Ascii.eqb c c'); [|reflexivity]. cbn [andb]. apply IH.
Qed.

Lemma prefix_app (needle s : string) : String.prefix needle (needle ++ s) = true.
Proof.
  induction needle as [|c needle IH]; [apply prefix_nil_l|].
  rewrite append_cons, prefix_cons, Ascii.eqb_refl. exact IH.
Qed.

Lemma occurs_here (needle s : string) : String.prefix needle s = true -> occurs needle s = true.
Proof. intros H. destruct s; cbn [occurs]; now rewrite H. Qed.

Lemma occurs_app_r (needle a b : string) :
  occurs needle b = true -> occurs needle (a ++ b) = true.
Proof.
  intros H. induction a as [|c a IH]; [exact H|].
  rewrite append_cons. cbn [occurs]. rewrite IH. apply orb_true_r.
Qed.

Lemma search_inv (p : Pattern.pattern) (s before rest : string) :
  Pattern.search p s = Some (before, rest) ->
  exists s', s = before ++ s' /\ Pattern.match_at p s' = Some rest.
Proof.
  revert before. induction s as [|c s IH]; intros before; cbn [Pattern.search].
  - destruct (Pattern.match_at p EmptyString) eqn:E; [|discriminate].
    intros [= <- <-]. now exists EmptyString.
  - destruct (Pattern.match_at p (String c s)) eqn:E.
    + intros [= <- <-]. now exists (String c s).
    + destruct (Pattern.search p s) as [[b r]|]; [|discriminate].
      intros [= <- <-]. destruct (IH b eq_refl) as (s' & -> & H). now exists s'.
Qed.

Lemma search_none (p : Pattern.pattern) (s : string) :
  (forall s', Pattern.match_at p s' <> None -> occurs temp_prefix s' = true) ->
  occurs temp_prefix s = false -> Pattern.search p s = None.
Proof.
  intros Hp Hs. destruct (Pattern.search p s) as [[before rest]|] eqn:E; [|reflexivity].
  apply search_inv in E as (s' & -> & Hm).
  rewrite occurs_app_r in Hs; [discriminate|]. apply Hp. now rewrite Hm.
Qed.

Lemma tempdir_match_mentions_prefix (tmp s : string) (q : Pattern.pattern) :
  Pattern.match_at
    (Pattern.Then (Pattern.Chars tmp) (Pattern.Then (Pattern.Chars ("/" ++ temp_prefix)) q)) s
  <> None ->
  occurs temp_prefix s = true.
Proof.
  unfold Pattern.match_at. cbn [Pattern.match_k].
  destruct (Pattern.literal_k tmp s _) as [r|] eqn:E; [intros _|congruence].
  apply literal_k_inv in E as (s1 & -> & E).
  apply literal_k_inv in E as (s2 & -> & _).
  apply occurs_app_r.
  change (("/" ++ temp_prefix) ++ s2) with (String "/" (temp_prefix ++ s2)).
  cbn [occurs]. rewrite (occurs_here temp_prefix (temp_prefix ++ s2)) by apply prefix_app.
  apply orb_true_r.
Qed.

Lemma win32_match_mentions_prefix (s : string) :
  Pattern.match_at win32_tempdir s <> None -> occurs temp_prefix s = true.
Proof.
  unfold Pattern.match_at, win32_tempdir. cbn [Pattern.match_k].
  destruct (Pattern.literal_k "C:/Users/" s _) as [r|] eqn:E; [intros _|congruence].
  apply literal_k_inv in E as (s1 & -> & E).
  apply occurs_app_r. clear -E.
  induction s1 as [|c s1 IH]; cbn [Pattern.many_k] in E.
  - apply literal_k_inv in E as (s2 & E & _). discriminate.
  - assert (L : Pattern.literal_k "/AppData/Local/Temp/compiler-explorer-compiler"
                  (String c s1)
                  (fun rest => Pattern.many_k tempdir_char rest
                                 (fun rest0 => Pattern.literal_k "/" rest0 Some)) = Some r
                -> occurs temp_prefix (String c s1) = true).
    { intros L. apply literal_k_inv in L as (s2 & -> & _).
      change ("/AppData/Local/Temp/compiler-explorer-compiler" ++ s2)
        with ("/AppData/Local/Temp/" ++ temp_prefix ++ s2).
      apply occurs_app_r, occurs_here, prefix_app. }
    destruct (tempdir_char c); [|exact (L E)].
    destruct (Pattern.many_k tempdir_char s1 _) eqn:M.
    + injection E as ->. cbn [occurs]. rewrite (IH eq_refl). apply orb_true_r.
    + exact (L E).
Qed.

(** X13. A path that does not mention compiler-explorer-compiler is not
    taken for a temporary directory: masking leaves it as it is, except
    that a leading /app/ is dropped (also from a path that never was in a
    temporary directory). *)
Theorem maskRootdir_leaves_other_paths (platform tmp filepath : string) :
  String.eqb platform "win32" = true \/ plain tmp = true ->
  occurs temp_prefix filepath = false ->
  (String.prefix "/app/" filepath = false -> maskRootdir platform tmp filepath = Some filepath)
  /\ (forall rest, filepath = "/app/" ++ rest ->
        maskRootdir platform tmp filepath = Some rest).
Proof.
  intros Hp Ho.
  assert (M : maskRootdir platform tmp filepath
              = Some (Pattern.replace_at_start (Pattern.Chars "/app/") EmptyString filepath)).
  { unfold maskRootdir. destruct filepath as [|c f]; [reflexivity|]. cbn [truthy_string].
    destruct (String.eqb platform "win32") eqn:Ew.
    - unfold Pattern.replace_at_start at 2.
      destruct (Pattern.match_at win32_tempdir (String c f)) eqn:E; [|reflexivity].
      rewrite win32_match_mentions_prefix in Ho by congruence. discriminate.
    - destruct Hp as [Hp|Hp]; [discriminate|]. unfold getRegexForTempdir. rewrite Hp.
      unfold Pattern.replace. rewrite search_none; [reflexivity| |exact Ho].
      intros s'. apply tempdir_match_mentions_prefix. }
  rewrite M. unfold Pattern.replace_at_start, Pattern.match_at. cbn [Pattern.match_k]. split.
  - intros Hn. now rewrite literal_k_no_prefix.
  - intros rest ->. now rewrite literal_k_app.
Qed.

Lemma maskRootdir_strips_tempdir_witness :
  maskRootdir "linux" "/nosym/tmp"
    ("/nosym/tmp" ++ "/" ++ temp_prefix ++ "2024-x" ++ "/" ++ "src/main.rs")
  = Some "src/main.rs".
Proof. apply maskRootdir_strips_tempdir; reflexivity. Defined.

Lemma maskRootdir_strips_win32_witness :
  maskRootdir "win32" "C:/Temp"
    ("C:/Users/" ++ "ce" ++ "/AppData/Local/Temp/compiler-explorer-compiler"
     ++ "77" ++ "/" ++ "a.exe")
  = Some "a.exe".
Proof. apply maskRootdir_strips_win32_tempdir; reflexivity. Defined.

Lemma fixRootDirIfNeeded_witness :
  fixRootDirIfNeeded "/tmp" ("/tmp" ++ "/" ++ temp_prefix ++ "AbC") "nsjail" = Some "/app".
Proof. apply fixRootDirIfNeeded_maps_jail_to_app; reflexivity. Defined.

Lemma maskRootdir_leaves_other_paths_witness :
  maskRootdir "linux" "/tmp" "/usr/include/stdio.h" = Some "/usr/include/stdio.h"
  /\ maskRootdir "win32" "/tmp" "/app/example.cpp" = Some "example.cpp".
Proof.
  split.
  - destruct (maskRootdir_leaves_other_paths "linux" "/tmp" "/usr/include/stdio.h")
      as [H _]; [right; reflexivity | reflexivity |].
    apply H. reflexivity.
  - destruct (maskRootdir_leaves_other_paths "win32" "/tmp" "/app/example.cpp")
      as [_ H]; [left; reflexivity | reflexivity |].
    apply H. reflexivity.
Defined.

(** ** Filters of old links *)

Example patchOldFilters_old_link :
  patchOldFilters (Some [("labels", JBool true); ("intel", JUndefined); ("execute", JBool true)])
  = Some [("labels", JBool true); ("intel", JBool false); ("execute", JBool true);
          ("binary", JBool false); ("directives", JBool false);
          ("commentOnly", JBool false); ("trim", JBool false); ("debugCalls", JBool false)].
Proof. reflexivity. Qed.

Lemma get_set_same (k : string) (v : JsValue) (o : JsObject) :
  get_property k (set_property k v o) = v.
Proof.
  induction o as [|[k' v'] o IH]; cbn [set_property get_property].
  - now rewrite String.eqb_refl.
  - destruct (String.eqb k k') eqn:E; cbn [get_property]; rewrite ?String.eqb_refl, ?E; auto.
Qed.

Lemma get_set_other (k k' : string) (v : JsValue) (o : JsObject) :
  k <> k' -> get_property k' (set_property k v o) = get_property k' o.
Proof.
  intros Hne. induction o as [|[k0 v0] o IH]; cbn [set_property get_property].
  - destruct (String.eqb_spec k' k); [congruence | reflexivity].
  - destruct (String.eqb_spec k k0) as [->|Hk]; cbn [get_property].
    + destruct (String.eqb_spec k' k0); [congruence | reflexivity].
    + now rewrite IH.
Qed.

Lemma get_patch_filter (o : JsObject) (name k : string) :
  get_property k (patch_filter o name)
  = if String.eqb k name && is_undefined (get_property k o) then JBool false
    else get_property k o.
Proof.
  unfold patch_filter. destruct (String.eqb_spec k name) as [->|Hne]; cbn [andb].
  - destruct (is_undefined (get_property name o)); [apply get_set_same | reflexivity].
  - destruct (is_undefined (get_property name o)); [|reflexivity].
    apply get_set_other. congruence.
Qed.

Lemma get_patch_filters (names : list string) (k : string) :
  forall o : JsObject,
    get_property k (fold_left patch_filter names o)
    = if existsb (String.eqb k) names && is_undefined (get_property k o) then JBool false
      else get_property k o.
Proof.
  induction names as [|name names IH]; intros o; cbn [fold_left existsb].
  - reflexivity.
  - rewrite IH, get_patch_filter.
    destruct (String.eqb k name), (existsb (String.eqb k) names),
      (is_undefined (get_property k o)) eqn:E; cbn [andb orb is_undefined]; rewrite ?E;
      reflexivity.
Qed.

(** X14. After patching, each of the seven old filters has a value: a filter
    that was missing, or present with the value undefined, reads false, and
    everything else reads as before, the other names included. *)
Theorem patchOldFilters_lookup (filters : JsObject) (k : string) :
  exists patched,
    patchOldFilters (Some filters) = Some patched
    /\ get_property k patched
       = (if existsb (String.eqb k) old_filters && is_undefined (get_property k filters)
          then JBool false else get_property k filters)
    /\ (In k old_filters -> is_undefined (get_property k patched) = false).
Proof.
  eexists. split; [reflexivity|]. split; [apply get_patch_filters|].
  intros Hin. rewrite get_patch_filters.
  assert (E : existsb (String.eqb k) old_filters = true).
  { apply List.existsb_exists. exists k. split; [exact Hin | apply String.eqb_refl]. }
  rewrite E. cbn [andb]. now destruct (is_undefined (get_property k filters)) eqn:U.
Qed.

Lemma patch_filter_defined (o : JsObject) (name : string) :
  is_undefined (get_property name o) = false -> patch_filter o name = o.
Proof. intros H. unfold patch_filter. now rewrite H. Qed.

Lemma patch_filters_defined (names : list string) (o : JsObject) :
  (forall k, In k names -> is_undefined (get_property k o) = false) ->
  fold_left patch_filter names o = o.
Proof.
  induction names as [|name names IH]; intros H; cbn [fold_left]; [reflexivity|].
  rewrite patch_filter_defined by (apply H; now left).
  apply IH. intros k Hk. apply H. now right.
Qed.

(** X15. Patching filters that were patched changes nothing, and an absent
    set of filters stays absent. *)
Theorem patchOldFilters_idempotent (filters : option JsObject) :
  patchOldFilters (patchOldFilters filters) = patchOldFilters filters.
Proof.
  destruct filters as [o|]; [|reflexivity]. cbn [patchOldFilters]. f_equal.
  apply patch_filters_defined. intros k Hk. rewrite get_patch_filters.
  assert (E : existsb (String.eqb k) old_filters = true).
  { apply List.existsb_exists. exists k. split; [exact Hk | apply String.eqb_refl]. }
  rewrite E. cbn [andb]. now destruct (is_undefined (get_property k o)) eqn:U.
Qed.

Lemma set_property_keeps_defined (k : string) (v : JsValue) (o : JsObject) (i : nat)
    (k' : string) (v' : JsValue) :
  is_undefined (get_property k o) = true ->
  o !! i = Some (k', v') -> is_undefined v' = false ->
  set_property k v o !! i = Some (k', v').
Proof.
  revert i. induction o as [|[k0 v0] o IH]; intros i; [discriminate|].
  cbn [set_property get_property]. destruct (String.eqb k k0).
  - intros Hu. destruct i; cbn; [intros [= -> ->]; congruence | auto].
  - intros Hu. destruct i; cbn; [auto | now apply IH].
Qed.

Lemma set_property_length (k : string) (v : JsValue) (o : JsObject) :
  (List.length o <= List.length (set_property k v o) <= S (List.length o))%nat.
Proof.
  induction o as [|[k0 v0] o IH]; cbn [set_property List.length]; [lia|].
  destruct (String.eqb k k0); cbn [List.length]; lia.
Qed.

Lemma patch_filters_keep (names : list string) (i : nat) (k : string) (v : JsValue) :
  forall o : JsObject,
    o !! i = Some (k, v) -> is_undefined v = false ->
    fold_left patch_filter names o !! i = Some (k, v).
Proof.
  induction names as [|name names IH]; intros o Hi Hv; cbn [fold_left]; [exact Hi|].
  apply IH; [|exact Hv]. unfold patch_filter.
  destruct (is_undefined (get_property name o)) eqn:U; [|exact Hi].
  now apply set_property_keeps_defined.
Qed.

Lemma patch_filters_length (names : list string) :
  forall o : JsObject,
    (List.length o <= List.length (fold_left patch_filter names o)
     <= List.length o + List.length names)%nat.
Proof.
  induction names as [|name names IH]; intros o; cbn [fold_left List.length]; [lia|].
  specialize (IH (patch_filter o name)). unfold patch_filter in *.
  pose proof (set_property_length name (JBool false) o).
  destruct (is_undefined (get_property name o)); lia.
Qed.

(** X16. Patching keeps what the link said: every entry with a defined value
    stays at its place with its value (a filter set to true is never turned
    off, whatever comes before it), and at most the seven old filters are
    added. *)
Theorem patchOldFilters_keeps_entries (filters : JsObject) :
  exists patched,
    patchOldFilters (Some filters) = Some patched
    /\ (forall i k v, filters !! i = Some (k, v) -> is_undefined v = false ->
          patched !! i = Some (k, v))
    /\ (List.length filters <= List.length patched <= List.length filters + 7)%nat.
Proof.
  eexists. split; [reflexivity|]. split.
  - intros i k v. apply patch_filters_keep.
  - apply (patch_filters_length old_filters).
Qed.

(** ** Versions for Quick Bench *)

Example cleanupSemVer_samples :
  cleanupSemVer "13.2.0" = Some "13.2"
  /\ cleanupSemVer "12" = Some "12.0"
  /\ cleanupSemVer "12." = Some "12.0"
  /\ cleanupSemVer ".5" = Some ".5"
  /\ cleanupSemVer "(trunk)" = None
  /\ cleanupSemVer EmptyString = None.
Proof. repeat split. Qed.

Lemma split_on_parts (sep c : ascii) (s : string) :
  exists first others,
    split_on sep s = first :: others
    /\ includes_char sep first = false
    /\ (includes_char c s = false ->
        includes_char c first = false
        /\ Forall (fun x => includes_char c x = false) others)
    /\ Forall (fun x => includes_char sep x = false) others.
Proof.
  induction s as [|a s (first & others & E & Hf & Hc & Ho)]; cbn [split_on].
  - exists EmptyString, []. repeat split; constructor.
  - destruct (Ascii.eqb a sep) eqn:Ea.
    + exists EmptyString, (first :: others). rewrite E. split; [reflexivity|].
      split; [reflexivity|]. split.
      * cbn [includes_char]. intros H. apply orb_false_iff in H as [_ H].
        destruct (Hc H). split; [reflexivity|]. now constructor.
      * now constructor.
    + exists (String a first), others. rewrite E. split; [reflexivity|].
      cbn [includes_char]. rewrite Ea, Hf. split; [reflexivity|]. split; [|exact Ho].
      intros H. apply orb_false_iff in H as [H1 H]. destruct (Hc H) as [H2 H3].
      now rewrite H1, H2.
Qed.

Lemma includes_char_app (c : ascii) (a b : string) :
  includes_char c (a ++ b) = includes_char c a || includes_char c b.
Proof.
  induction a as [|x a IH]; [reflexivity|].
  rewrite append_cons. cbn [includes_char]. now rewrite IH, orb_assoc.
Qed.

Lemma cleanupSemVer_null_cases (semver : string) :
  cleanupSemVer semver = None
  <-> semver = EmptyString \/ includes_char "(" semver = true.
Proof.
  unfold cleanupSemVer. destruct semver as [|c s]; cbn [truthy_string].
  - split; auto.
  - cbn [String.eqb negb andb]. cbv zeta.
    destruct (includes_char "(" (String c s)); cbn [negb]; split; auto; try discriminate.
    intros [H|H]; discriminate.
Qed.

(** X17. No version comes out exactly when the text is empty or holds an
    opening parenthesis (as in the names of trunk builds). *)
Theorem cleanupSemVer_null_iff (semver : string) :
  cleanupSemVer semver = None
  <-> semver = EmptyString \/ includes_char "(" semver = true.
Proof. apply cleanupSemVer_null_cases. Qed.

Lemma cleanupSemVer_shape (semver result : string) :
  cleanupSemVer semver = Some result ->
  exists major minor,
    result = major ++ "." ++ minor
    /\ split_on "." result = [major; minor]
    /\ minor <> EmptyString
    /\ List.nth_error (split_on "." semver) 0 = Some major
    /\ includes_char "(" result = false
    /\ cleanupSemVer result = Some result.
Proof.
  intros H.
  assert (Hn : includes_char "(" semver = false /\ semver <> EmptyString).
  { destruct (includes_char "(" semver) eqn:E.
    - assert (N : cleanupSemVer semver = None) by (apply cleanupSemVer_null_cases; auto).
      congruence.
    - split; [reflexivity|]. intros ->. discriminate. }
  destruct Hn as [Hp Hne].
  unfold cleanupSemVer in H. destruct semver as [|c s]; [congruence|].
  cbn [truthy_string String.eqb negb andb] in H. rewrite Hp in H. cbn [negb] in H.
  cbv zeta in H.
  destruct (split_on_parts "." "(" (String c s)) as (major & others & E & Hmajor & Hc & Ho).
  destruct (Hc Hp) as [Hpm Hpo]. rewrite E in H |- *.
  cbn [at_index List.nth_error concat_operand] in H.
  set (minor := match others with
                | [] => "0"
                | m :: _ => if truthy_string m then m else "0"
                end).
  assert (Hr : result = major ++ "." ++ minor).
  { subst minor. destruct others; now injection H as <-. }
  assert (Hminor : includes_char "." minor = false /\ includes_char "(" minor = false
                   /\ minor <> EmptyString).
  { subst minor. destruct others as [|m others]; [repeat split; discriminate|].
    apply List.Forall_cons_iff in Ho as [Ho _]. apply List.Forall_cons_iff in Hpo as [Hpo _].
    destruct m; cbn [truthy_string]; repeat split; try assumption; discriminate. }
  destruct Hminor as (Hdm & Hpm' & Hnm).
  assert (Hs : split_on "." (major ++ "." ++ minor) = [major; minor]).
  { change ("." ++ minor) with (String "." minor).
    rewrite split_on_app_sep by exact Hmajor. now rewrite split_on_no_sep. }
  assert (Hpr : includes_char "(" (major ++ "." ++ minor) = false).
  { rewrite !includes_char_app, Hpm, Hpm'. reflexivity. }
  exists major, minor. rewrite Hr. repeat split; try assumption; try reflexivity.
  unfold cleanupSemVer.
  assert (T : truthy_string (major ++ "." ++ minor) = true) by now destruct major.
  rewrite T. destruct (major ++ "." ++ minor) eqn:Em; [discriminate|].
  cbn [String.eqb negb andb]. rewrite Hpr. cbn [negb]. cbv zeta. rewrite Hs.
  cbn [at_index List.nth_error concat_operand].
  destruct minor; [congruence|]. cbn [truthy_string]. now rewrite Em.
Qed.

(** X18. A version that comes out has the form major.minor with exactly one
    dot: major is what the text has before its first dot (possibly
    nothing), minor is never empty (0 stands in for a missing or empty
    second component), and no parenthesis is left. *)
Theorem cleanupSemVer_major_minor (semver result : string) :
  cleanupSemVer semver = Some result ->
  exists major minor,
    result = major ++ "." ++ minor
    /\ split_on "." result = [major; minor]
    /\ minor <> EmptyString
    /\ List.nth_error (split_on "." semver) 0 = Some major
    /\ includes_char "(" result = false.
Proof.
  intros H. destruct (cleanupSemVer_shape semver result H)
    as (major & minor & H1 & H2 & H3 & H4 & H5 & _).
  now exists major, minor.
Qed.

(** X19. Cleaning a cleaned version gives it back. *)
Theorem cleanupSemVer_idempotent (semver result : string) :
  cleanupSemVer semver = Some result -> cleanupSemVer result = Some result.
Proof.
  intros H. destruct (cleanupSemVer_shape semver result H)
    as (major & minor & _ & _ & _ & _ & _ & H6).
  exact H6.
Qed.

Lemma cleanupSemVer_major_minor_witness :
  exists major minor,
    "13.2" = major ++ "." ++ minor
    /\ split_on "." "13.2" = [major; minor]
    /\ minor <> EmptyString
    /\ List.nth_error (split_on "." "13.2.0-rc1") 0 = Some major
    /\ includes_char "(" "13.2" = false.
Proof. apply (cleanupSemVer_major_minor "13.2.0-rc1" "13.2"). reflexivity. Defined.

Lemma cleanupSemVer_idempotent_witness : cleanupSemVer "12.0" = Some "12.0".
Proof. apply (cleanupSemVer_idempotent "12" "12.0"). reflexivity. Defined.

(** ** Escaping text *)

Example asciiEncodeJsonText_e_acute :
  Utf16.asciiEncodeJsonText (Utf16.units "caf" ++ [233])%list = Utf16.units "caf\u0000e9".
Proof. reflexivity. Qed.

Example htmlEncode_tag :
  Utf16.htmlEncode (Utf16.units "a<b>&c" ++ [233; 40000])%list
  = (Utf16.units "a&#60;b&#62;&#38;c&#233;" ++ [40000])%list.
Proof. reflexivity. Qed.

Lemma units_cons (c : ascii) (s : string) :
  Utf16.units (String c s) = Utf16.code_unit c :: Utf16.units s.
Proof. reflexivity. Qed.

Lemma hex_uint_units (d : Hexadecimal.uint) :
  Forall (fun u => 48 <= u <= 102) (Utf16.units (HexadecimalString.NilEmpty.string_of_uint d)).
Proof.
  induction d; cbn [HexadecimalString.NilEmpty.string_of_uint]; [constructor|..];
    rewrite units_cons; (constructor; [vm_compute; split; discriminate | exact IHd]).
Qed.

Lemma toString16_units (n : Z) :
  0 <= n -> Forall (fun u => 48 <= u <= 102) (Utf16.units (Utf16.toString16 n)).
Proof.
  intros Hn. unfold Utf16.toString16. destruct n as [|p|p]; [|
    |lia].
  - repeat constructor; vm_compute; discriminate.
  - cbn [Z.to_hex_int HexadecimalString.NilZero.string_of_int].
    unfold HexadecimalString.NilZero.string_of_uint.
    destruct (Pos.to_hex_uint p) eqn:E; try (rewrite <- E; apply hex_uint_units).
    repeat constructor; vm_compute; discriminate.
Qed.

Lemma toString16_nonempty (n : Z) : Utf16.toString16 n <> EmptyString.
Proof.
  unfold Utf16.toString16.
  destruct (Z.to_hex_int n) as [d|d]; cbn [HexadecimalString.NilZero.string_of_int];
    [|discriminate].
  unfold HexadecimalString.NilZero.string_of_uint. destruct d; discriminate.
Qed.

Lemma substring_negative {A : Type} (s : list A) (start : Z) :
  start <= 0 -> Utf16.substring s start = s.
Proof.
  intros H. unfold Utf16.substring.
  replace (Z.min (Z.max start 0) (Z.of_nat (List.length s))) with 0 by lia. reflexivity.
Qed.

Lemma escape_shape (chr : Z) :
  127 <= chr <= 65535 ->
  Utf16.asciiEncodeJsonText [chr]
  = (Utf16.units "\u0000" ++ Utf16.units (Utf16.toString16 chr))%list.
Proof.
  intros H. unfold Utf16.asciiEncodeJsonText. cbn [List.flat_map].
  destruct (Z.leb_spec 127 chr); [|lia]. destruct (Z.leb_spec chr 65535); [|lia].
  cbn [andb]. rewrite substring_negative by lia. now rewrite app_nil_r.
Qed.

Lemma asciiEncodeJsonText_cons (chr : Z) (json : list Z) :
  Utf16.asciiEncodeJsonText (chr :: json)
  = (Utf16.asciiEncodeJsonText [chr] ++ Utf16.asciiEncodeJsonText json)%list.
Proof. unfold Utf16.asciiEncodeJsonText. cbn [List.flat_map]. now rewrite app_nil_r. Qed.

(** X20. What comes out of [asciiEncodeJsonText] is plain ASCII: for a text
    of UTF-16 code units, every unit of the result is below 127. *)
Theorem asciiEncodeJsonText_output_ascii (json : list Z) :
  Utf16.valid json ->
  Forall (fun u => 0 <= u < 127) (Utf16.asciiEncodeJsonText json).
Proof.
  unfold Utf16.valid. induction 1 as [|chr json Hc _ IH]; [constructor|].
  rewrite asciiEncodeJsonText_cons. apply Forall_app. split; [|exact IH].
  destruct (Z.leb_spec 127 chr).
  - rewrite escape_shape by lia. apply Forall_app. split.
    + repeat constructor; vm_compute; discriminate.
    + eapply List.Forall_impl; [|apply toString16_units; lia].
      cbv beta. intros u Hu. lia.
  - unfold Utf16.asciiEncodeJsonText. cbn [List.flat_map].
    destruct (Z.leb_spec 127 chr); [lia|]. cbn [andb]. repeat constructor; lia.
Qed.

(** X21. The escape written for a character from 127 up is a backslash and
    a u, then four zeros, then all the hexadecimal digits of its code:
    [substring(-4)] keeps the whole padded text, not its last four
    characters, so an escape always has more than the six characters of a
    well-formed one. *)
Theorem asciiEncodeJsonText_escape (chr : Z) :
  127 <= chr <= 65535 ->
  exists digit digits,
    Utf16.units (Utf16.toString16 chr) = digit :: digits
    /\ Utf16.asciiEncodeJsonText [chr]
       = (Utf16.units "\u0000" ++ digit :: digits)%list
    /\ (6 < List.length (Utf16.asciiEncodeJsonText [chr]))%nat.
Proof.
  intros H. rewrite escape_shape by exact H.
  destruct (Utf16.toString16 chr) as [|c s] eqn:E;
    [now apply toString16_nonempty in E|].
  exists (Utf16.code_unit c), (Utf16.units s). rewrite units_cons.
  split; [reflexivity|]. split; [reflexivity|].
  rewrite List.length_app.
  change (List.length (Utf16.units "\u0000")) with 6%nat. cbn [List.length]. lia.
Qed.

(** X22. A text whose characters are all below 127 is left as it is. *)
Theorem asciiEncodeJsonText_ascii_unchanged (json : list Z) :
  Forall (fun u => u < 127) json -> Utf16.asciiEncodeJsonText json = json.
Proof.
  induction 1 as [|chr json Hc _ IH]; [reflexivity|].
  unfold Utf16.asciiEncodeJsonText in *. cbn [List.flat_map]. rewrite IH.
  destruct (Z.leb_spec 127 chr); [lia|]. reflexivity.
Qed.

Lemma dec_uint_units (d : Decimal.uint) :
  Forall (fun u => 48 <= u <= 57) (Utf16.units (NilEmpty.string_of_uint d)).
Proof.
  induction d; cbn [NilEmpty.string_of_uint]; [constructor|..];
    rewrite units_cons; (constructor; [vm_compute; split; discriminate | exact IHd]).
Qed.

Lemma Z_to_string_units (n : Z) :
  0 <= n -> Forall (fun u => 48 <= u <= 57) (Utf16.units (Z_to_string n)).
Proof.
  intros Hn. unfold Z_to_string. destruct n as [|p|p]; [| |lia].
  - repeat constructor; vm_compute; discriminate.
  - cbn [Z.to_int NilZero.string_of_int]. unfold NilZero.string_of_uint.
    destruct (Pos.to_uint p) eqn:E; try (rewrite <- E; apply dec_uint_units).
    repeat constructor; vm_compute; discriminate.
Qed.

Lemma htmlEncode_cons (i : Z) (rawStr : list Z) :
  Utf16.htmlEncode (i :: rawStr)
  = (Utf16.htmlEncode [i] ++ Utf16.htmlEncode rawStr)%list.
Proof. unfold Utf16.htmlEncode. cbn [List.flat_map]. now rewrite app_nil_r. Qed.

(** X23. What comes out of [htmlEncode] has no angle bracket left, whatever
    goes in. *)
Theorem htmlEncode_no_angle_brackets (rawStr : list Z) :
  Forall (fun u => u <> Utf16.code_unit "<" /\ u <> Utf16.code_unit ">")
         (Utf16.htmlEncode rawStr).
Proof.
  induction rawStr as [|i rawStr IH]; [constructor|].
  rewrite htmlEncode_cons. apply Forall_app. split; [|exact IH].
  unfold Utf16.htmlEncode. cbn [List.flat_map]. rewrite app_nil_r.
  change (Utf16.code_unit "<") with 60. change (Utf16.code_unit ">") with 62.
  change (Utf16.code_unit "&") with 38.
  destruct (((160 <=? i) && (i <=? 39321)) || (i =? 60) || (i =? 62) || (i =? 38)) eqn:E.
  - assert (Hi : 0 <= i).
    { destruct (Z.leb_spec 160 i), (Z.eqb_spec i 60), (Z.eqb_spec i 62), (Z.eqb_spec i 38);
        cbn in E; try lia; discriminate. }
    apply Forall_app. split; [repeat constructor; vm_compute; discriminate|].
    apply Forall_app. split; [|repeat constructor; vm_compute; discriminate].
    eapply List.Forall_impl; [|apply Z_to_string_units; exact Hi].
    cbv beta. intros u Hu. lia.
  - constructor; [|constructor].
    destruct (Z.eqb_spec i 60), (Z.eqb_spec i 62); cbn in E;
      rewrite ?orb_true_r in E; try discriminate; lia.
Qed.

(** X24. [htmlEncode] leaves alone a text without angle brackets and
    ampersands whose characters are all below 160 or above 39321 (0x9999):
    the characters above that bound are not turned into references. *)
Theorem htmlEncode_unchanged (rawStr : list Z) :
  Forall (fun u => (u < 160 \/ 39321 < u)
                   /\ u <> Utf16.code_unit "<" /\ u <> Utf16.code_unit ">"
                   /\ u <> Utf16.code_unit "&") rawStr ->
  Utf16.htmlEncode rawStr = rawStr.
Proof.
  change (Utf16.code_unit "<") with 60. change (Utf16.code_unit ">") with 62.
  change (Utf16.code_unit "&") with 38.
  induction 1 as [|i rawStr Hi _ IH]; [reflexivity|].
  rewrite htmlEncode_cons, IH. unfold Utf16.htmlEncode. cbn [List.flat_map].
  change (Utf16.code_unit "<") with 60. change (Utf16.code_unit ">") with 62.
  change (Utf16.code_unit "&") with 38.
  destruct (Z.leb_spec 160 i), (Z.leb_spec i 39321), (Z.eqb_spec i 60), (Z.eqb_spec i 62),
    (Z.eqb_spec i 38); cbn [andb orb]; try lia; reflexivity.
Qed.

Lemma asciiEncodeJsonText_output_ascii_witness :
  Forall (fun u => 0 <= u < 127) (Utf16.asciiEncodeJsonText [104; 233; 8364; 65535]).
Proof.
  apply asciiEncodeJsonText_output_ascii. unfold Utf16.valid. repeat constructor; lia.
Defined.

Lemma asciiEncodeJsonText_escape_witness :
  exists digit digits,
    Utf16.units (Utf16.toString16 233) = digit :: digits
    /\ Utf16.asciiEncodeJsonText [233] = (Utf16.units "\u0000" ++ digit :: digits)%list
    /\ (6 < List.length (Utf16.asciiEncodeJsonText [233%Z]))%nat.
Proof. apply asciiEncodeJsonText_escape. lia. Defined.

Lemma asciiEncodeJsonText_ascii_unchanged_witness :
  Utf16.asciiEncodeJsonText (Utf16.units "{}") = Utf16.units "{}".
Proof.
  apply asciiEncodeJsonText_ascii_unchanged. repeat constructor.
Defined.

Lemma htmlEncode_unchanged_witness :
  Utf16.htmlEncode [104; 105; 40000] = [104; 105; 40000].
Proof.
  apply htmlEncode_unchanged.
  repeat constructor; try lia; vm_compute; discriminate.
Defined.

(** ** Saving a user template *)

Lemma template_id_inj (a b : Z) : template_id a = template_id b -> a = b.
Proof. unfold template_id. intros [= H]. now apply Z_to_string_inj. Qed.

Lemma has_property_In (k : string) (o : JsObject) :
  has_property k o = true <-> In k (List.map fst o).
Proof.
  unfold has_property. rewrite List.existsb_exists, List.in_map_iff. split.
  - intros (e & He & Hk). apply String.eqb_eq in Hk. now exists e.
  - intros (e & Hk & He). exists e. split; [exact He|]. now apply String.eqb_eq.
Qed.

Lemma free_timestamp_some (fuel : nat) (o : JsObject) :
  forall ts r : Z,
    free_timestamp fuel o ts = Some r ->
    ts <= r < ts + Z.of_nat fuel
    /\ has_property (template_id r) o = false
    /\ (forall x, ts <= x < r -> has_property (template_id x) o = true).
Proof.
  induction fuel as [|fuel IH]; intros ts r; cbn [free_timestamp]; [discriminate|].
  destruct (has_property (template_id ts) o) eqn:E.
  - intros H. destruct (IH _ _ H) as (Hr & Hf & Hb). split; [lia|]. split; [exact Hf|].
    intros x Hx. destruct (Z.eq_dec x ts) as [->|Hne]; [exact E | apply Hb; lia].
  - intros [= <-]. split; [lia|]. split; [exact E|]. intros x Hx. lia.
Qed.

Lemma free_timestamp_none (fuel : nat) (o : JsObject) :
  forall ts : Z,
    free_timestamp fuel o ts = None ->
    forall x, ts <= x < ts + Z.of_nat fuel -> has_property (template_id x) o = true.
Proof.
  induction fuel as [|fuel IH]; intros ts; cbn [free_timestamp]; [intros _ x Hx; lia|].
  destruct (has_property (template_id ts) o) eqn:E; [|discriminate].
  intros H x Hx. destruct (Z.eq_dec x ts) as [->|Hne]; [exact E|].
  apply (IH _ H). lia.
Qed.

Lemma free_timestamp_found (o : JsObject) (ts : Z) :
  free_timestamp (S (List.length o)) o ts <> None.
Proof.
  intros H. pose proof (free_timestamp_none _ _ _ H) as Hall.
  set (ids := List.map (fun i => template_id (ts + Z.of_nat i)) (seq 0 (S (List.length o)))).
  assert (Hnd : List.NoDup ids).
  { apply Finite.Injective_map_NoDup; [|apply List.seq_NoDup].
    intros i j Hij. apply template_id_inj in Hij. lia. }
  assert (Hincl : List.incl ids (List.map fst o)).
  { intros k Hk. apply List.in_map_iff in Hk as (i & <- & Hi). apply List.in_seq in Hi.
    apply has_property_In, Hall. lia. }
  pose proof (List.NoDup_incl_length Hnd Hincl) as L.
  unfold ids in L. rewrite !List.length_map, List.length_seq in L. lia.
Qed.

(** X25. Saving a template never replaces a stored one: the search for a
    free identifier always ends, within one test more than there are
    templates, on the first identifier from the current time on that is not
    taken, and the new template is appended under it, the stored ones
    staying as they are. *)
Theorem saveCurrentAsTemplate_appends (userTemplates : JsObject) (now : Z)
    (name data : string) :
  exists timestamp,
    saveCurrentAsTemplate userTemplates now name data
    = Some (userTemplates
            ++ [(template_id timestamp,
                 JObject [("title", JString name); ("data", JString data)])])%list
    /\ now <= timestamp <= now + Z.of_nat (List.length userTemplates)
    /\ has_property (template_id timestamp) userTemplates = false
    /\ (forall x, now <= x < timestamp ->
          has_property (template_id x) userTemplates = true).
Proof.
  unfold saveCurrentAsTemplate.
  destruct (free_timestamp (S (List.length userTemplates)) userTemplates now)
    as [timestamp|] eqn:E; [|now apply free_timestamp_found in E].
  destruct (free_timestamp_some _ _ _ _ E) as (Hr & Hf & Hb).
  exists timestamp. split; [|split; [lia|split; assumption]].
  f_equal. apply set_property_fresh. intros Hin. apply has_property_In in Hin. congruence.
Qed.

Example saveCurrentAsTemplate_taken :
  saveCurrentAsTemplate
    [("t1700000000000", JObject [("title", JString "one"); ("data", JString "a")]);
     ("t1700000000001", JObject [("title", JString "two"); ("data", JString "b")])]
    1700000000000 "three" "c"
  = Some
      [("t1700000000000", JObject [("title", JString "one"); ("data", JString "a")]);
       ("t1700000000001", JObject [("title", JString "two"); ("data", JString "b")]);
       ("t1700000000002", JObject [("title", JString "three"); ("data", JString "c")])].
Proof. reflexivity. Qed.
